(** * The Int3face faucet: a shallow embedding of [src/faucet.js] and
    [src/config.js]

    The two request handlers ([/config.json] and [/send/:address]) and
    [sendTx] are asynchronous JavaScript functions.  They are embedded as
    programs over the calls they [await]: every call to a collaborator
    (the frequency checker, the wallet, the RPC client) is a node of the
    program, and the code between two calls is a pure function.  An
    interpreter runs one program to completion; a scheduler interleaves
    several programs at their calls, which is how the Node.js event loop
    interleaves requests. *)

From Stdlib Require Import ZArith String Ascii List Bool Lia DecimalString.
From stdpp Require Import base gmap strings list.

(* ================================================================== *)
(** * JavaScript values *)
(* ================================================================== *)

(** A thrown value.  [message] is [None] when the thrown value has no
    [message] property ([error.message] is [undefined]). *)
Record Error := mkError { message : option string }.

Definition new_Error (m : string) : Error := mkError (Some m).

(** [`${error.message}`] inside a template literal. *)
Definition message_text (e : Error) : string :=
  match message e with
  | Some m => m
  | None => "undefined"
  end.

(** The outcome of an awaited call: a value, or a thrown error. *)
Inductive result (A : Type) : Type :=
| Ok (a : A)
| Err (e : Error).
Arguments Ok {A} a.
Arguments Err {A} e.

(** A string is falsy exactly when it is empty. *)
Definition truthy (s : string) : bool :=
  match s with
  | EmptyString => false
  | String _ _ => true
  end.

(** [s.startsWith(p)] *)
Fixpoint startsWith (s p : string) : bool :=
  match p with
  | EmptyString => true
  | String c p' =>
    match s with
    | EmptyString => false
    | String d s' => Ascii.eqb d c && startsWith s' p'
    end
  end.

(** [s.includes(needle)]: [needle] occurs at some position of [s]. *)
Fixpoint includes (s needle : string) : bool :=
  startsWith s needle ||
  match s with
  | EmptyString => false
  | String _ s' => includes s' needle
  end.

(** Does the character [c] occur in [s]? *)
Fixpoint has_char (c : ascii) (s : string) : bool :=
  match s with
  | EmptyString => false
  | String d s' => Ascii.eqb d c || has_char c s'
  end.

(** [toUpperCase] on byte strings: the letters a-z are mapped, every other
    byte is kept. *)
Definition upper_ascii (c : ascii) : ascii :=
  let n := nat_of_ascii c in
  if (97 <=? n)%nat && (n <=? 122)%nat then ascii_of_nat (n - 32) else c.

Fixpoint toUpperCase (s : string) : string :=
  match s with
  | EmptyString => EmptyString
  | String c s' => String (upper_ascii c) (toUpperCase s')
  end.

(* ================================================================== *)
(** * Configuration ([src/config.js]) *)
(* ================================================================== *)

(** [{ denom, amount }] *)
Record Coin := { coin_denom : string; coin_amount : string }.

(** [{ amount: [...], gas }] *)
Record StdFee := { fee_amount : list Coin; fee_gas : string }.

(** [sender.option]: [{ hdPaths, prefix }] *)
Record WalletOption := { hdPaths : list string; opt_prefix : string }.

Record Config := {
  port : Z;
  db_path : string;
  (** [project] is a plain object; the handler copies it with a spread. *)
  project : gmap string string;
  chain_id : string;
  rpc_endpoint : string;
  mnemonic : string;
  sender_option : WalletOption;
  tx_amount : Coin;
  tx_fee : StdFee;
  limit_address : Z;
  limit_ip : Z
}.

(** The three values read from [process.env]; [None] is an unset
    variable. *)
Record ProcessEnv := {
  CHAIN_ID : option string;
  RPC_ENDPOINT : option string;
  FAUCET_MNEMONIC : option string
}.

(** [process.env.X || ""] *)
Definition or_empty (v : option string) : string :=
  match v with
  | Some s => s
  | None => EmptyString
  end.

(** The double-quote character, for string constants that contain it. *)
Definition dquote : string := String (ascii_of_nat 34) EmptyString.

(** The default export of [src/config.js]. *)
Definition conf (env : ProcessEnv) : Config := {|
  port := 3838;
  db_path := "./db/faucet.db";
  project :=
    {[ "name" := "Int3face";
       "logo" := "https://raw.githubusercontent.com/cosmos/chain-registry/master/int3face/images/int3.png";
       "deployer" := "<a href=" +:+ dquote +:+ "#" +:+ dquote +:+ ">Int3face</a>" ]};
  chain_id := or_empty (CHAIN_ID env);
  rpc_endpoint := or_empty (RPC_ENDPOINT env);
  mnemonic := or_empty (FAUCET_MNEMONIC env);
  sender_option := {| hdPaths := ["m/44'/118'/0'/0/0"]; opt_prefix := "int3" |};
  tx_amount := {| coin_denom := "uint3"; coin_amount := "1000000" |};
  tx_fee := {| fee_amount := [ {| coin_denom := "uint3"; coin_amount := "1000" |} ];
               fee_gas := "200000" |};
  limit_address := 5;
  limit_ip := 5
|}.

(* ================================================================== *)
(** * Collaborators and the calls made to them *)
(* ================================================================== *)

(** An entry of [wallet.getAccounts()]. *)
Record AccountData := { address : string }.

(** What [client.getAccount] resolves to when the account exists. *)
Record Account := { accountNumber : Z; sequence : Z }.

(** The fifth argument of [client.sendTokens] in [sendTx]:
    [{ accountNumber, sequence }], the ordering token. *)
Record OrderToken := { tok_accountNumber : Z; tok_sequence : Z }.

(** What [client.sendTokens] resolves to. *)
Record DeliverTxResponse := {
  height : Z;
  txhash : string;
  code : Z;
  gasUsed : Z;
  gasWanted : Z
}.

(** Object references handed out by the libraries. *)
Definition wallet := nat.
Definition client := nat.

(** Calls on [DirectSecp256k1HdWallet] and [SigningStargateClient]. *)
Inductive chain_call : Type -> Type :=
| fromMnemonic (m : string) (o : WalletOption) : chain_call wallet
| getAccounts (w : wallet) : chain_call (list AccountData)
| connect (rpc : string) : chain_call client
| connectWithSigner (rpc : string) (w : wallet) : chain_call client
| getChainId (c : client) : chain_call string
| getAccount (c : client) (addr : string) : chain_call (option Account)
| getAllBalances (c : client) (addr : string) : chain_call (list Coin)
| sendTokens (c : client) (sender recipient : string) (amt : list Coin)
    (fee : StdFee) (tok : OrderToken) : chain_call DeliverTxResponse.

(** Calls on the [FrequencyChecker] instance [checker]. *)
Inductive checker_call : Type -> Type :=
| checkAddress (a : string) : checker_call bool
| checkIp (ip : string) : checker_call bool
| update (key : string) : checker_call unit.

Inductive call : Type -> Type :=
| Checker {X} (q : checker_call X) : call X
| Chain {X} (c : chain_call X) : call X.

(* ================================================================== *)
(** * Asynchronous programs *)
(* ================================================================== *)

(** A program either returns, throws, or makes a call and continues with
    its outcome. *)
Inductive prog (R : Type) : Type :=
| Ret (r : R)
| Throw (e : Error)
| Await {X : Type} (c : call X) (k : result X -> prog R).
Arguments Ret {R} r.
Arguments Throw {R} e.
Arguments Await {R X} c k.

Fixpoint bind {A B : Type} (p : prog A) (f : A -> prog B) : prog B :=
  match p with
  | Ret a => f a
  | Throw e => Throw e
  | Await c k => Await c (fun r => bind (k r) f)
  end.

(** [try { p } catch (error) { h error }] *)
Fixpoint try_catch {A : Type} (p : prog A) (h : Error -> prog A) : prog A :=
  match p with
  | Ret a => Ret a
  | Throw e => h e
  | Await c k => Await c (fun r => try_catch (k r) h)
  end.

(** [await c]: the value, or the error rethrown at the call site. *)
Definition await {X : Type} (c : call X) : prog X :=
  Await c (fun r => match r with Ok x => Ret x | Err e => Throw e end).

(** [c] without [await]: the call is made and what it returns is
    dropped.  An error the call itself throws is raised at the call site,
    inside the enclosing [try]; otherwise the handler goes on at once.
    When the call returned a promise, its later settlement is no part of
    the request: a rejection of it is not seen by the enclosing [try]. *)
Definition detached {X : Type} (c : call X) : prog unit :=
  Await c (fun r => match r with Ok _ => Ret tt | Err e => Throw e end).

Notation "'let*' x ':=' p 'in' q" := (bind p (fun x => q))
  (at level 10, x name, p at level 100, q at level 200, only parsing).

(* ================================================================== *)
(** * HTTP responses *)
(* ================================================================== *)

Inductive Body :=
| JsonResult (s : string)            (** [{ result: s }] *)
| JsonError (s : string)             (** [{ error: s }] *)
| JsonTx (r : DeliverTxResponse)     (** [safeJsonStringify({ result })] *)
| JsonObject (o : gmap string string).

Record Response := { status : nat; body : Body }.

(* ================================================================== *)
(** * [sendTx] *)
(* ================================================================== *)

(** The message of the TypeError raised by [firstAccount.address] when
    [getAccounts] resolved to an empty array. *)
Definition undefined_address : Error :=
  new_Error "Cannot read properties of undefined (reading 'address')".

Definition chain_mismatch (expected got : string) : Error :=
  new_Error ("Chain-id mismatch: expected " +:+ expected +:+ ", got " +:+ got).

Definition account_missing (addr : string) : Error :=
  new_Error ("Account [" +:+ addr +:+ "] does not exist on the blockchain.").

Definition bad_amount : Error :=
  new_Error "Invalid transaction amount format in configuration.".

Definition bad_fee : Error :=
  new_Error "Invalid transaction fee format in configuration.".

Definition tx_failed (recipient : string) (e : Error) : Error :=
  new_Error ("Transaction failed for recipient " +:+ recipient +:+ ": "
             +:+ message_text e).

(** [!amount || !amount.amount || !amount.denom]; the object itself is
    always truthy. *)
Definition amount_invalid (a : Coin) : bool :=
  negb (truthy (coin_amount a)) || negb (truthy (coin_denom a)).

(** [!fee || !fee.amount || !fee.gas]; the object and the array are
    always truthy. *)
Definition fee_invalid (f : StdFee) : bool :=
  negb (truthy (fee_gas f)).

Definition sendTx (cf : Config) (recipient : string) : prog DeliverTxResponse :=
  try_catch
    (let* w := await (Chain (fromMnemonic (mnemonic cf) (sender_option cf))) in
     let* accounts := await (Chain (getAccounts w)) in
     let firstAccount := head accounts in
     let* cl := await (Chain (connectWithSigner (rpc_endpoint cf) w)) in
     let* chainId := await (Chain (getChainId cl)) in
     if negb (String.eqb chainId (chain_id cf)) then
       Throw (chain_mismatch (chain_id cf) chainId)
     else
       match firstAccount with
       | None => Throw undefined_address
       | Some fa =>
         let* account := await (Chain (getAccount cl (address fa))) in
         match account with
         | None => Throw (account_missing (address fa))
         | Some acc =>
           let amount := tx_amount cf in
           if amount_invalid amount then Throw bad_amount
           else
             let fee := tx_fee cf in
             if fee_invalid fee then Throw bad_fee
             else
               await (Chain (sendTokens cl (address fa) recipient [amount] fee
                        {| tok_accountNumber := accountNumber acc;
                           tok_sequence := sequence acc |}))
         end
       end)
    (fun error => Throw (tx_failed recipient error)).

(* ================================================================== *)
(** * [GET /send/:address] *)
(* ================================================================== *)

Definition address_required : Response :=
  {| status := 400; body := JsonResult "Address is required." |}.

Definition not_supported (a : string) : Response :=
  {| status := 400;
     body := JsonResult ("Address [" +:+ a +:+ "] is not supported.") |}.

Definition too_often : Response :=
  {| status := 429;
     body := JsonResult "You have requested tokens too often. Please try again later." |}.

Definition not_on_chain (a : string) : Response :=
  {| status := 400;
     body := JsonResult ("Address [" +:+ a +:+
       "] does not exist on the blockchain. Please create the account first.") |}.

Definition send_failed : Response :=
  {| status := 500;
     body := JsonResult "Failed to send tokens. Please contact the administrator." |}.

Definition sent (r : DeliverTxResponse) : Response :=
  {| status := 200; body := JsonTx r |}.

(** The text the handler's [catch] block looks for. *)
Definition missing_phrase : string := "does not exist on chain".

(** [error.message && error.message.includes("does not exist on chain")] *)
Definition mentions_missing_account (e : Error) : bool :=
  match message e with
  | Some m => truthy m && includes m missing_phrase
  | None => false
  end.

Definition send_handler (cf : Config) (a ip : string) : prog Response :=
  if negb (truthy a) then Ret address_required
  else if negb (startsWith a (opt_prefix (sender_option cf))) then
    Ret (not_supported a)
  else
    try_catch
      (let* isAddressAllowed := await (Checker (checkAddress a)) in
       let* isIpAllowed := await (Checker (checkIp ip)) in
       if negb isAddressAllowed || negb isIpAllowed then Ret too_often
       else
         let* _ := detached (Checker (update ip)) in
         let* result := sendTx cf a in
         let* _ := detached (Checker (update a)) in
         Ret (sent result))
      (fun error =>
         if mentions_missing_account error then Ret (not_on_chain a)
         else Ret send_failed).

(* ================================================================== *)
(** * [GET /config.json] *)
(* ================================================================== *)

Definition config_failed : Response :=
  {| status := 500; body := JsonError "Failed to load configuration." |}.

(** [conf.tx.amount.denom || 'uint3'] *)
Definition balance_denom (cf : Config) : string :=
  if truthy (coin_denom (tx_amount cf)) then coin_denom (tx_amount cf)
  else "uint3".

(** The template literal assigned to [project.faucetBalance]. *)
Definition faucetBalance (balance : list Coin) (denom : string) : string :=
  match find (fun b => String.eqb (coin_denom b) denom) balance with
  | Some b => coin_amount b +:+ " " +:+ toUpperCase denom
  | None => "0 " +:+ toUpperCase denom
  end.

(** The object the handler sends: the copy of [project] with the two
    properties assigned to it. *)
Definition project_view (p : gmap string string) (fa : string)
  (balance : list Coin) (denom : string) : gmap string string :=
  <["faucetBalance" := faucetBalance balance denom]>
    (<["faucetAddress" := fa]> p).

Definition config_json (cf : Config) : prog Response :=
  try_catch
    (let* w := await (Chain (fromMnemonic (mnemonic cf) (sender_option cf))) in
     let* accounts := await (Chain (getAccounts w)) in
     let firstAccount := head accounts in
     let project0 := project cf in
     match firstAccount with
     | None => Throw undefined_address
     | Some fa =>
       let project1 := <["faucetAddress" := address fa]> project0 in
       let* cl := await (Chain (connect (rpc_endpoint cf))) in
       let* balance := await (Chain (getAllBalances cl (address fa))) in
       let denom := balance_denom cf in
       let project2 :=
         <["faucetBalance" := faucetBalance balance denom]> project1 in
       Ret {| status := 200; body := JsonObject project2 |}
     end)
    (fun _ => Ret config_failed).

(* ================================================================== *)
(** * Running programs *)
(* ================================================================== *)

(** The collaborators taken together: a state, the outcome of every call
    in a state, and the wall clock ([Date.now()]). *)
Record World := {
  wstate : Type;
  respond : forall X : Type, call X -> wstate -> result X * wstate;
  clock : wstate -> Z
}.

(** One completed call: when it was made, what was called, how it
    ended. *)
Inductive event := Event (t : Z) {X : Type} (c : call X) (r : result X).

(** One request handled alone, from its first call to its response. *)
Fixpoint run {E : World} {R : Type} (p : prog R) (w : wstate E)
  : result R * list event * wstate E :=
  match p with
  | Ret r => (Ok r, [], w)
  | Throw e => (Err e, [], w)
  | Await c k =>
    let '(r, w1) := respond E _ c w in
    let '(res, tr, w2) := run (k r) w1 in
    (res, Event (clock E w1) c r :: tr, w2)
  end.

(** The parts of a finished run. *)
Definition answer_of {A B C : Type} (x : A * B * C) : A := fst (fst x).
Definition trace_of {A B C : Type} (x : A * B * C) : B := snd (fst x).
Definition world_of {A B C : Type} (x : A * B * C) : C := snd x.

(** Requests in flight together.  The event loop resumes one request at
    a time, and a resumed request runs until its next call; [step_pool i]
    completes the pending call of request [i]. *)
Definition step_pool {E : World} {R : Type} (i : nat) (pool : list (prog R))
  (w : wstate E) : list (prog R) * list event * wstate E :=
  match pool !! i with
  | Some (Await c k) =>
    let '(r, w1) := respond E _ c w in
    (<[i := k r]> pool, [Event (clock E w1) c r], w1)
  | _ => (pool, [], w)
  end.

Fixpoint run_pool {E : World} {R : Type} (sched : list nat)
  (pool : list (prog R)) (w : wstate E)
  : list (prog R) * list event * wstate E :=
  match sched with
  | [] => (pool, [], w)
  | i :: sched' =>
    let '(pool1, tr1, w1) := step_pool i pool w in
    let '(pool2, tr2, w2) := run_pool sched' pool1 w1 in
    (pool2, tr1 ++ tr2, w2)
  end.

(** A request to [/send/:address]: [req.params.address] and [req.ip]. *)
Record Request := { req_address : string; req_ip : string }.

Definition handle (cf : Config) (rq : Request) : prog Response :=
  send_handler cf (req_address rq) (req_ip rq).

(* ================================================================== *)
(** * Reading a trace *)
(* ================================================================== *)

Definition is_ok {X : Type} (r : result X) : bool :=
  match r with Ok _ => true | Err _ => false end.

(** The arguments of one [sendTokens] call. *)
Record Transfer := {
  tr_from : string;
  tr_to : string;
  tr_amount : list Coin;
  tr_fee : StdFee;
  tr_token : OrderToken
}.

Definition chain_transfer {X : Type} (c : chain_call X) : option Transfer :=
  match c with
  | sendTokens _ s r a f t =>
    Some {| tr_from := s; tr_to := r; tr_amount := a; tr_fee := f; tr_token := t |}
  | _ => None
  end.

Definition call_transfer {X : Type} (c : call X) : option Transfer :=
  match c with
  | Chain c => chain_transfer c
  | Checker _ => None
  end.

Definition broadcast (e : event) : option Transfer :=
  match e with Event _ c _ => call_transfer c end.

Definition successful_broadcast (e : event) : option Transfer :=
  match e with Event _ c r => if is_ok r then call_transfer c else None end.

(** All broadcasts of a trace, and those the chain accepted. *)
Definition broadcasts (tr : list event) : list Transfer := omap broadcast tr.
Definition successes (tr : list event) : list Transfer :=
  omap successful_broadcast tr.

Definition is_chain_call {X : Type} (c : call X) : bool :=
  match c with Chain _ => true | Checker _ => false end.

Definition is_chain_event (e : event) : bool :=
  match e with Event _ c _ => is_chain_call c end.

Definition event_time (e : event) : Z :=
  match e with Event t _ _ => t end.

(** The instant of an [update(k)] call. *)
Definition checker_update (k : string) {X : Type} (q : checker_call X)
  : bool :=
  match q with
  | update k' => bool_decide (k' = k)
  | _ => false
  end.

Definition update_time (k : string) (e : event) : option Z :=
  match e with
  | Event t (Checker q) _ => if checker_update k q then Some t else None
  | Event _ (Chain _) _ => None
  end.

(** The instants at which [update] was called for the subject [k]. *)
Definition updates (k : string) (tr : list event) : list Z :=
  omap (update_time k) tr.

(** The two kinds of subject. *)
Inductive kind := Address | Origin.

Definition limit_of (cf : Config) (kd : kind) : Z :=
  match kd with
  | Address => limit_address cf
  | Origin => limit_ip cf
  end.

(** The instant of an admission check of kind [kd] on the subject [k]
    that returned [true]. *)
Definition checker_allowed (kd : kind) (k : string) {X : Type}
  (q : checker_call X) : result X -> bool :=
  match q in checker_call X return result X -> bool with
  | checkAddress a => fun r =>
      match kd, r with
      | Address, Ok b => b && bool_decide (a = k)
      | _, _ => false
      end
  | checkIp ip => fun r =>
      match kd, r with
      | Origin, Ok b => b && bool_decide (ip = k)
      | _, _ => false
      end
  | update _ => fun _ => false
  end.

(** The call that makes an admission check of kind [kd] on [k]. *)
Definition check_call (kd : kind) (k : string) : call bool :=
  match kd with
  | Address => Checker (checkAddress k)
  | Origin => Checker (checkIp k)
  end.

Definition allowed_time (kd : kind) (k : string) (e : event) : option Z :=
  match e with
  | Event t (Checker q) r => if checker_allowed kd k q r then Some t else None
  | Event _ (Chain _) _ => None
  end.

Definition allowed_checks (kd : kind) (k : string) (tr : list event)
  : list Z :=
  omap (allowed_time kd k) tr.

(** The address of the first account a wallet reported, if any call to
    [getAccounts] succeeded with a non-empty list. *)
Definition chain_first_account {X : Type} (c : chain_call X)
  : result X -> option string :=
  match c in chain_call X return result X -> option string with
  | getAccounts _ => fun r =>
      match r with Ok (fa :: _) => Some (address fa) | _ => None end
  | _ => fun _ => None
  end.

Definition first_account (e : event) : option string :=
  match e with
  | Event _ (Chain c) r => chain_first_account c r
  | Event _ (Checker _) _ => None
  end.

Definition custodial_addresses (tr : list event) : list string :=
  omap first_account tr.

(** The identities the connected chain reported. *)
Definition chain_reported_id {X : Type} (c : chain_call X)
  : result X -> option string :=
  match c in chain_call X return result X -> option string with
  | getChainId _ => fun r => match r with Ok cid => Some cid | Err _ => None end
  | _ => fun _ => None
  end.

Definition reported_id (e : event) : option string :=
  match e with
  | Event _ (Chain c) r => chain_reported_id c r
  | Event _ (Checker _) _ => None
  end.

Definition chain_ids (tr : list event) : list string := omap reported_id tr.

(** The account lookups that were answered: the address asked for and
    the account found, if any. *)
Definition chain_lookup {X : Type} (c : chain_call X)
  : result X -> option (string * option Account) :=
  match c in chain_call X return result X -> option (string * option Account) with
  | getAccount _ addr => fun r =>
      match r with Ok o => Some (addr, o) | Err _ => None end
  | _ => fun _ => None
  end.

Definition lookup_answer (e : event) : option (string * option Account) :=
  match e with
  | Event _ (Chain c) r => chain_lookup c r
  | Event _ (Checker _) _ => None
  end.

Definition account_lookups (tr : list event)
  : list (string * option Account) :=
  omap lookup_answer tr.

(** The balances the chain reported. *)
Definition chain_balance {X : Type} (c : chain_call X)
  : result X -> option (list Coin) :=
  match c in chain_call X return result X -> option (list Coin) with
  | getAllBalances _ _ => fun r =>
      match r with Ok l => Some l | Err _ => None end
  | _ => fun _ => None
  end.

Definition balance_answer (e : event) : option (list Coin) :=
  match e with
  | Event _ (Chain c) r => chain_balance c r
  | Event _ (Checker _) _ => None
  end.

Definition balance_answers (tr : list event) : list (list Coin) :=
  omap balance_answer tr.

(** An admission check that raised instead of returning a decision. *)
Definition checker_raised {X : Type} (q : checker_call X) (r : result X)
  : bool :=
  match q with
  | checkAddress _ | checkIp _ => negb (is_ok r)
  | update _ => false
  end.

Definition check_raised (e : event) : bool :=
  match e with
  | Event _ (Checker q) r => checker_raised q r
  | Event _ (Chain _) _ => false
  end.

(* ================================================================== *)
(** * The frequency checker *)
(* ================================================================== *)

(** Modelled from the spec: the quota records of [checker.js], which is
    missing from the sources.  One record per subject key holds the
    instants of the counted events, in ascending order. *)

(** The lookback window: 24 hours, in the milliseconds of [Date.now()]. *)
Definition WINDOW : Z := 86400000.

(** A counted instant [x] still lies within the window at [t]. *)
Definition recent (t x : Z) : Prop := (t - x < WINDOW)%Z.

#[global] Instance recent_dec (t x : Z) : Decision (recent t x) :=
  decide (t - x < WINDOW)%Z.

(** The record of a subject, empty when the store has none. *)
Definition record_of (st : gmap string (list Z)) (k : string) : list Z :=
  default [] (st !! k).

(** The record with the expired instants dropped. *)
Definition live (t : Z) (st : gmap string (list Z)) (k : string) : list Z :=
  filter (recent t) (record_of st k).

(** An instant [x] lies in the 24-hour window that starts at [t]. *)
Definition in_window (t x : Z) : Prop := (t <= x < t + WINDOW)%Z.

#[global] Instance in_window_dec (t x : Z) : Decision (in_window t x) :=
  decide (t <= x < t + WINDOW)%Z.

(** Modelled from the spec: [checker.js] (class [FrequencyChecker], with
    the methods [checkAddress], [checkIp] and [update] that the handler
    calls) is missing from the sources.  The spec's admission is one
    operation, [checkAndReserve(subjectKey, kind)]: fetch the subject's
    record (or an empty one); drop timestamps older than the 24-hour
    window; if the remaining count is below the configured limit for that
    kind, append the current instant, persist, and return allowed;
    otherwise return denied without mutating stored state.
    [below_limit] is its test. *)
Definition below_limit (limit t : Z) (st : gmap string (list Z)) (k : string)
  : bool :=
  bool_decide (Z.of_nat (length (live t st k)) < limit)%Z.

(** Modelled from the spec: the counting of [checkAndReserve]: drop the
    expired instants, append the current one, persist. *)
Definition count_event (t : Z) (st : gmap string (list Z)) (k : string)
  : gmap string (list Z) :=
  <[k := live t st k ++ [t]]> st.

(** Modelled from the spec: [checkAndReserve], the test and the counting
    in one step. *)
Definition checkAndReserve (limit t : Z) (st : gmap string (list Z))
  (k : string) : bool * gmap string (list Z) :=
  if below_limit limit t st k then (true, count_event t st k)
  else (false, st).

(** Modelled from the spec: the three methods of the missing
    [FrequencyChecker].  [checkAddress] and [checkIp] are the two
    instances of [checkAndReserve], with the address limit and the origin
    limit; [update] is the spec's [commit], which confirms the event
    already counted and changes nothing. *)
Definition checker_respond (cf : Config) {X : Type} (q : checker_call X)
  (t : Z) (st : gmap string (list Z)) : result X * gmap string (list Z) :=
  match q in checker_call X return result X * gmap string (list Z) with
  | checkAddress a =>
    let '(b, st1) := checkAndReserve (limit_address cf) t st a in (Ok b, st1)
  | checkIp ip =>
    let '(b, st1) := checkAndReserve (limit_ip cf) t st ip in (Ok b, st1)
  | update k => (Ok tt, st)
  end.

(** How many more events the subject may have counted at [t]. *)
Definition allowance (limit t : Z) (st : gmap string (list Z)) (k : string)
  : Z :=
  (limit - Z.of_nat (length (live t st k)))%Z.

(* ================================================================== *)
(** * The faucet's world: checker, clock and chain *)
(* ================================================================== *)

(** The wallet and RPC libraries with the chain behind them: a state and
    the outcome of every call. *)
Record ChainModel := {
  cstate : Type;
  chain_respond : forall X : Type, chain_call X -> cstate -> result X * cstate
}.

Record faucet_state (C : ChainModel) := {
  now : Z;
  (** how far the clock advances before each of the coming calls *)
  ticks : list N;
  store : gmap string (list Z);
  chain : cstate C
}.
Arguments now {C} _.
Arguments ticks {C} _.
Arguments store {C} _.
Arguments chain {C} _.

Definition tick {C : ChainModel} (w : faucet_state C) : faucet_state C :=
  {| now := now w + Z.of_N (hd 0%N (ticks w));
     ticks := tl (ticks w);
     store := store w;
     chain := chain w |}.

Definition faucet_respond (cf : Config) (C : ChainModel) (X : Type)
  (c : call X) (w : faucet_state C) : result X * faucet_state C :=
  let w1 := tick w in
  match c in call X return result X * faucet_state C with
  | Checker q =>
    let '(r, st) := checker_respond cf q (now w1) (store w1) in
    (r, {| now := now w1; ticks := ticks w1; store := st; chain := chain w1 |})
  | Chain c =>
    let '(r, cs) := chain_respond C _ c (chain w1) in
    (r, {| now := now w1; ticks := ticks w1; store := store w1; chain := cs |})
  end.

Definition faucet_world (cf : Config) (C : ChainModel) : World :=
  {| wstate := faucet_state C;
     respond := faucet_respond cf C;
     clock := now |}.

(** ** A chain that keeps one account *)

Record ledger := {
  l_chain_id : string;
  l_faucet : string;
  l_accountNumber : Z;
  l_sequence : Z;
  l_balances : list Coin;
  (** the custodial account exists on the chain *)
  l_exists : bool;
  (** the node refuses every broadcast *)
  l_refuses : bool
}.

Definition receipt (l : ledger) : DeliverTxResponse :=
  {| height := l_sequence l; txhash := "TX"; code := 0;
     gasUsed := 0; gasWanted := 0 |}.

Definition advance (l : ledger) : ledger :=
  {| l_chain_id := l_chain_id l; l_faucet := l_faucet l;
     l_accountNumber := l_accountNumber l;
     l_sequence := l_sequence l + 1;
     l_balances := l_balances l; l_exists := l_exists l;
     l_refuses := l_refuses l |}.

(** Does the ledger take a broadcast carrying the token [t]?  A [strict]
    ledger takes it only when the token is the account's current one. *)
Definition takes (strict : bool) (l : ledger) (t : OrderToken) : bool :=
  negb (l_refuses l) &&
  (negb strict ||
   ((tok_accountNumber t =? l_accountNumber l)%Z &&
    (tok_sequence t =? l_sequence l)%Z)).

Definition ledger_respond (strict : bool) (X : Type) (c : chain_call X)
  (l : ledger) : result X * ledger :=
  match c in chain_call X return result X * ledger with
  | fromMnemonic _ _ => (Ok 0%nat, l)
  | getAccounts _ => (Ok [ {| address := l_faucet l |} ], l)
  | connect _ => (Ok 0%nat, l)
  | connectWithSigner _ _ => (Ok 0%nat, l)
  | getChainId _ => (Ok (l_chain_id l), l)
  | getAccount _ addr =>
    (Ok (if l_exists l && bool_decide (addr = l_faucet l)
         then Some {| accountNumber := l_accountNumber l;
                      sequence := l_sequence l |}
         else None), l)
  | getAllBalances _ _ => (Ok (l_balances l), l)
  | sendTokens _ _ _ _ _ t =>
    if takes strict l t then (Ok (receipt l), advance l)
    else (Err (new_Error "broadcast rejected"), l)
  end.

(** The chain that enforces the account sequence, and one that does
    not look at the token. *)
Definition strict_chain : ChainModel :=
  {| cstate := ledger; chain_respond := ledger_respond true |}.

Definition lax_chain : ChainModel :=
  {| cstate := ledger; chain_respond := ledger_respond false |}.

(** A world in which every call fails: the quota store cannot be
    reached and neither can the node. *)
Definition offline_world : World :=
  {| wstate := unit;
     respond := fun X _ w => (Err (new_Error "unavailable"), w);
     clock := fun _ => 0%Z |}.

(* ================================================================== *)
(** * Scenarios *)
(* ================================================================== *)

Definition env0 : ProcessEnv :=
  {| CHAIN_ID := Some "int3face-1";
     RPC_ENDPOINT := Some "http://localhost:26657";
     FAUCET_MNEMONIC := Some "abandon abandon about" |}.

Definition ledger0 : ledger :=
  {| l_chain_id := "int3face-1"; l_faucet := "int3faucet";
     l_accountNumber := 7; l_sequence := 41;
     l_balances := [ {| coin_denom := "uint3"; coin_amount := "5000000" |} ];
     l_exists := true; l_refuses := false |}.

(** The same chain with a node that refuses broadcasts. *)
Definition refusing_ledger : ledger :=
  {| l_chain_id := "int3face-1"; l_faucet := "int3faucet";
     l_accountNumber := 7; l_sequence := 41;
     l_balances := [ {| coin_denom := "uint3"; coin_amount := "5000000" |} ];
     l_exists := true; l_refuses := true |}.

(** A chain on which the custodial account does not exist. *)
Definition unfunded_ledger : ledger :=
  {| l_chain_id := "int3face-1"; l_faucet := "int3faucet";
     l_accountNumber := 7; l_sequence := 41;
     l_balances := [];
     l_exists := false; l_refuses := false |}.

(** A chain with another identity than the configured one. *)
Definition foreign_ledger : ledger :=
  {| l_chain_id := "othernet-9"; l_faucet := "int3faucet";
     l_accountNumber := 7; l_sequence := 41;
     l_balances := [];
     l_exists := true; l_refuses := false |}.

Definition world0 (C : ChainModel) (l : cstate C) : faucet_state C :=
  {| now := 1000; ticks := []; store := ∅; chain := l |}.

(** The faucet with the repository's configuration over the strict
    chain, and over the chain that does not look at tokens. *)
Definition cf0 : Config := conf env0.
Definition strict_world : World := faucet_world cf0 strict_chain.
Definition lax_world : World := faucet_world cf0 lax_chain.

(** A second deployment: same project and transfer settings, another
    mnemonic, endpoint and chain. *)
Definition env1 : ProcessEnv :=
  {| CHAIN_ID := Some "othernet-9";
     RPC_ENDPOINT := Some "http://10.1.1.1:26657";
     FAUCET_MNEMONIC := Some "zoo zoo wrong" |}.

(** The recipient [int3alice] has used up its five events. *)
Definition used_up : faucet_state strict_chain :=
  {| now := 1000; ticks := [];
     store := {[ "int3alice" := [100; 200; 300; 400; 500]%Z ]};
     chain := (ledger0 : cstate strict_chain) |}.

(** A recipient that carries the prefix and the text the [catch] block
    looks for. *)
Definition odd_recipient : string := "int3 does not exist on chain".

(** Two requests for distinct recipients from distinct origins. *)
Definition two_requests : list Request :=
  [ {| req_address := "int3alice"; req_ip := "10.0.0.1" |};
    {| req_address := "int3bob"; req_ip := "10.0.0.2" |} ].

(** Both requests reach [getAccount] before either broadcasts. *)
Definition overlap_schedule : list nat :=
  [0; 0; 0; 0; 0; 0; 0; 0;  1; 1; 1; 1; 1; 1; 1; 1;  0; 1;  0; 1]%nat.

(** Six requests for one recipient from six origins, limit five. *)
Definition six_requests : list Request :=
  map (fun ip => {| req_address := "int3alice"; req_ip := ip |})
      ["10.0.0.1"; "10.0.0.2"; "10.0.0.3"; "10.0.0.4"; "10.0.0.5"; "10.0.0.6"].

(** Every request makes both checks before any of them goes on; then
    each is run to its end. *)
Definition checks_first_schedule : list nat :=
  [0; 0; 1; 1; 2; 2; 3; 3; 4; 4; 5; 5]%nat
  ++ concat (map (fun i => replicate 8 i) [0; 1; 2; 3; 4; 5]%nat).


(* ================================================================== *)
(** * The outcomes of one [/send/:address] request *)
(* ================================================================== *)

(** The transfer [sendTx] builds for a recipient. *)
Definition transfer_of (cf : Config) (fa rcpt : string) (tok : OrderToken)
  : Transfer :=
  {| tr_from := fa; tr_to := rcpt; tr_amount := [tx_amount cf];
     tr_fee := tx_fee cf; tr_token := tok |}.

(** The response of the handler's [catch] block. *)
Definition on_error (a : string) (e : Error) : Response :=
  if mentions_missing_account e then not_on_chain a else send_failed.

(** The paths through the handler: what a request returns, the calls it
    makes and the world it leaves, by the stage at which it ends. *)
Inductive handled {E : World} (cf : Config) (a ip : string) (w : wstate E)
  : result Response -> list event -> wstate E -> Prop :=
| handled_required :
    truthy a = false ->
    handled cf a ip w (Ok address_required) [] w
| handled_unsupported :
    truthy a = true ->
    startsWith a (opt_prefix (sender_option cf)) = false ->
    handled cf a ip w (Ok (not_supported a)) [] w
| handled_address_raised e w1 :
    truthy a = true ->
    startsWith a (opt_prefix (sender_option cf)) = true ->
    respond E _ (Checker (checkAddress a)) w = (Err e, w1) ->
    handled cf a ip w (Ok (on_error a e))
      [Event (clock E w1) (Checker (checkAddress a)) (Err e)] w1
| handled_ip_raised b e w1 w2 :
    truthy a = true ->
    startsWith a (opt_prefix (sender_option cf)) = true ->
    respond E _ (Checker (checkAddress a)) w = (Ok b, w1) ->
    respond E _ (Checker (checkIp ip)) w1 = (Err e, w2) ->
    handled cf a ip w (Ok (on_error a e))
      [Event (clock E w1) (Checker (checkAddress a)) (Ok b);
       Event (clock E w2) (Checker (checkIp ip)) (Err e)] w2
| handled_denied b1 b2 w1 w2 :
    truthy a = true ->
    startsWith a (opt_prefix (sender_option cf)) = true ->
    respond E _ (Checker (checkAddress a)) w = (Ok b1, w1) ->
    respond E _ (Checker (checkIp ip)) w1 = (Ok b2, w2) ->
    b1 && b2 = false ->
    handled cf a ip w (Ok too_often)
      [Event (clock E w1) (Checker (checkAddress a)) (Ok b1);
       Event (clock E w2) (Checker (checkIp ip)) (Ok b2)] w2
| handled_origin_update_raised w1 w2 e w3 :
    truthy a = true ->
    startsWith a (opt_prefix (sender_option cf)) = true ->
    respond E _ (Checker (checkAddress a)) w = (Ok true, w1) ->
    respond E _ (Checker (checkIp ip)) w1 = (Ok true, w2) ->
    respond E _ (Checker (update ip)) w2 = (Err e, w3) ->
    handled cf a ip w (Ok (on_error a e))
      [Event (clock E w1) (Checker (checkAddress a)) (Ok true);
       Event (clock E w2) (Checker (checkIp ip)) (Ok true);
       Event (clock E w3) (Checker (update ip)) (Err e)] w3
| handled_failed w1 w2 w3 e trs w4 :
    truthy a = true ->
    startsWith a (opt_prefix (sender_option cf)) = true ->
    respond E _ (Checker (checkAddress a)) w = (Ok true, w1) ->
    respond E _ (Checker (checkIp ip)) w1 = (Ok true, w2) ->
    respond E _ (Checker (update ip)) w2 = (Ok tt, w3) ->
    run (sendTx cf a) w3 = (Err e, trs, w4) ->
    handled cf a ip w (Ok (on_error a e))
      ([Event (clock E w1) (Checker (checkAddress a)) (Ok true);
        Event (clock E w2) (Checker (checkIp ip)) (Ok true);
        Event (clock E w3) (Checker (update ip)) (Ok tt)] ++ trs) w4
| handled_recipient_update_raised w1 w2 w3 res trs w4 e w5 :
    truthy a = true ->
    startsWith a (opt_prefix (sender_option cf)) = true ->
    respond E _ (Checker (checkAddress a)) w = (Ok true, w1) ->
    respond E _ (Checker (checkIp ip)) w1 = (Ok true, w2) ->
    respond E _ (Checker (update ip)) w2 = (Ok tt, w3) ->
    run (sendTx cf a) w3 = (Ok res, trs, w4) ->
    respond E _ (Checker (update a)) w4 = (Err e, w5) ->
    handled cf a ip w (Ok (on_error a e))
      ([Event (clock E w1) (Checker (checkAddress a)) (Ok true);
        Event (clock E w2) (Checker (checkIp ip)) (Ok true);
        Event (clock E w3) (Checker (update ip)) (Ok tt)] ++ trs ++
       [Event (clock E w5) (Checker (update a)) (Err e)]) w5
| handled_sent w1 w2 w3 res trs w4 w5 :
    truthy a = true ->
    startsWith a (opt_prefix (sender_option cf)) = true ->
    respond E _ (Checker (checkAddress a)) w = (Ok true, w1) ->
    respond E _ (Checker (checkIp ip)) w1 = (Ok true, w2) ->
    respond E _ (Checker (update ip)) w2 = (Ok tt, w3) ->
    run (sendTx cf a) w3 = (Ok res, trs, w4) ->
    respond E _ (Checker (update a)) w4 = (Ok tt, w5) ->
    handled cf a ip w (Ok (sent res))
      ([Event (clock E w1) (Checker (checkAddress a)) (Ok true);
        Event (clock E w2) (Checker (checkIp ip)) (Ok true);
        Event (clock E w3) (Checker (update ip)) (Ok tt)] ++ trs ++
       [Event (clock E w5) (Checker (update a)) (Ok tt)]) w5.


(* ================================================================== *)
(** * The properties under study *)
(* ================================================================== *)

(** A missing custodial account is always answered with the generic
    failure. *)
Definition missing_account_always_generic : Prop :=
  forall (E : World) (cf : Config) (a ip : string) (w : wstate E),
    let x := run (send_handler cf a ip) w in
    (exists fa, (fa, None) ∈ account_lookups (trace_of x)) ->
    answer_of x = Ok send_failed.

(** Every admission of kind [kd] on the subject [k] that is still within
    the window is in the stored record of the subject. *)
Definition reserved_in_store {C : ChainModel} (tr : list event)
  (w : faucet_state C) : Prop :=
  forall kd k T, (now w <= T)%Z ->
    (length (filter (recent T) (allowed_checks kd k tr))
     <= length (filter (recent T) (record_of (store w) k)))%nat.

(** Within any window, no subject was admitted more often than the limit
    of the kind allows. *)
Definition admitted_within_limit (cf : Config) (tr : list event) : Prop :=
  forall kd k t,
    (Z.of_nat (length (filter (in_window t) (allowed_checks kd k tr)))
     <= Z.max 0 (limit_of cf kd))%Z.

(* ================================================================== *)
(** * More ways to read a trace *)
(* ================================================================== *)

(** The errors of the chain calls that failed. *)
Definition call_error {X : Type} (c : call X) (r : result X) : option Error :=
  match c, r with
  | Chain _, Err e => Some e
  | _, _ => None
  end.

Definition chain_error (e : event) : option Error :=
  match e with Event _ c r => call_error c r end.

Definition chain_errors (tr : list event) : list Error := omap chain_error tr.

(** The account lists the wallet reported. *)
Definition chain_account_list {X : Type} (c : chain_call X)
  : result X -> option (list AccountData) :=
  match c in chain_call X return result X -> option (list AccountData) with
  | getAccounts _ => fun r => match r with Ok l => Some l | Err _ => None end
  | _ => fun _ => None
  end.

Definition account_list (e : event) : option (list AccountData) :=
  match e with
  | Event _ (Chain c) r => chain_account_list c r
  | Event _ (Checker _) _ => None
  end.

Definition account_lists (tr : list event) : list (list AccountData) :=
  omap account_list tr.

(** The token made of a looked-up account. *)
Definition token_of (acc : Account) : OrderToken :=
  {| tok_accountNumber := accountNumber acc; tok_sequence := sequence acc |}.

(* ================================================================== *)
(** * [safeJsonStringify] *)
(* ================================================================== *)

(** The values given to [JSON.stringify]: the JSON values and BigInts.
    Numbers are the integers a transaction result holds (heights, codes,
    indices), which print in plain decimal; strings are byte strings. *)
#[local] Unset Elimination Schemes.
Inductive js_value :=
| VNull
| VBool (b : bool)
| VNumber (n : Z)
| VBigInt (n : Z)
| VString (s : string)
| VArray (items : list js_value)
| VObject (fields : list (string * js_value)).
#[local] Set Elimination Schemes.

(** [n.toString()] for a BigInt, and the text of an integer number:
    decimal digits, with a minus sign when negative. *)
Definition decimal (n : Z) : string := NilZero.string_of_int (Z.to_int n).

(** [typeof value === "bigint" ? value.toString() : value], the
    replacer given to [JSON.stringify]. *)
Definition replacer (v : js_value) : js_value :=
  match v with
  | VBigInt n => VString (decimal n)
  | _ => v
  end.

(** The value [JSON.stringify] serializes when it is given [replacer]:
    the replacer is applied to every value before its members are
    visited; it leaves arrays and objects as they are, so their members
    are visited next. *)
Fixpoint replaced (v : js_value) : js_value :=
  match v with
  | VArray items => VArray (map replaced items)
  | VObject fields =>
    VObject (map (fun kv => let '(k, x) := kv in (k, replaced x)) fields)
  | _ => replacer v
  end.

(** Does [JSON.stringify] reach a BigInt in the value? *)
Fixpoint has_bigint (v : js_value) : bool :=
  match v with
  | VBigInt _ => true
  | VArray items => existsb has_bigint items
  | VObject fields =>
    existsb (fun kv => let '(_, x) := kv in has_bigint x) fields
  | _ => false
  end.

Definition backslash : string := String (ascii_of_nat 92) EmptyString.

Definition hex_digit (n : nat) : string :=
  match String.get n "0123456789abcdef" with
  | Some c => String c EmptyString
  | None => EmptyString
  end.

(** One character between the quotes of a JSON string. *)
Definition json_escape_char (c : ascii) : string :=
  let n := nat_of_ascii c in
  if (n =? 34)%nat then backslash +:+ dquote
  else if (n =? 92)%nat then backslash +:+ backslash
  else if (n =? 8)%nat then backslash +:+ "b"
  else if (n =? 9)%nat then backslash +:+ "t"
  else if (n =? 10)%nat then backslash +:+ "n"
  else if (n =? 12)%nat then backslash +:+ "f"
  else if (n =? 13)%nat then backslash +:+ "r"
  else if (n <? 32)%nat then
    backslash +:+ "u00" +:+ hex_digit (n / 16) +:+ hex_digit (n mod 16)
  else String c EmptyString.

Fixpoint json_escape (s : string) : string :=
  match s with
  | EmptyString => EmptyString
  | String c s' => json_escape_char c +:+ json_escape s'
  end.

Definition json_quote (s : string) : string :=
  dquote +:+ json_escape s +:+ dquote.

(** The text of a value that holds no BigInt. *)
Fixpoint json_text (v : js_value) : string :=
  match v with
  | VNull => "null"
  | VBool true => "true"
  | VBool false => "false"
  | VNumber n => decimal n
  | VBigInt _ => EmptyString
  | VString s => json_quote s
  | VArray items => "[" +:+ String.concat "," (map json_text items) +:+ "]"
  | VObject fields =>
    "{" +:+ String.concat ","
              (map (fun kv => let '(k, x) := kv in
                              json_quote k +:+ ":" +:+ json_text x) fields)
        +:+ "}"
  end.

Definition bigint_type_error : Error :=
  new_Error "Do not know how to serialize a BigInt".

(** [JSON.stringify(v)] without a replacer: a TypeError as soon as a
    BigInt is reached. *)
Definition JSON_stringify (v : js_value) : result string :=
  if has_bigint v then Err bigint_type_error else Ok (json_text v).

(** [safeJsonStringify(obj)]: [JSON.stringify(obj, replacer)]. *)
Definition safeJsonStringify (v : js_value) : result string :=
  JSON_stringify (replaced v).

(** A character that needs no escape in a JSON string. *)
Definition plain_char (c : ascii) : bool :=
  let n := nat_of_ascii c in
  (32 <=? n)%nat && negb (n =? 34)%nat && negb (n =? 92)%nat.

Fixpoint plain_text (s : string) : bool :=
  match s with
  | EmptyString => true
  | String c s' => plain_char c && plain_text s'
  end.

(* ================================================================== *)
(** * More scenarios *)
(* ================================================================== *)

(** A configuration whose transfer denomination is empty. *)
Definition cf_no_denom : Config :=
  {| port := port cf0; db_path := db_path cf0; project := project cf0;
     chain_id := chain_id cf0; rpc_endpoint := rpc_endpoint cf0;
     mnemonic := mnemonic cf0; sender_option := sender_option cf0;
     tx_amount := {| coin_denom := EmptyString; coin_amount := "1000000" |};
     tx_fee := tx_fee cf0;
     limit_address := limit_address cf0; limit_ip := limit_ip cf0 |}.

(** A node that answers the wallet and connection calls and the chain
    identity, and fails every other call with [fail]; the wallet holds
    [accounts]. *)
Definition scripted_chain (accounts : list AccountData) (fail : Error)
  {X : Type} (c : chain_call X) : result X :=
  match c in chain_call X return result X with
  | fromMnemonic _ _ => Ok 0%nat
  | getAccounts _ => Ok accounts
  | connect _ => Ok 0%nat
  | connectWithSigner _ _ => Ok 0%nat
  | getChainId _ => Ok "int3face-1"
  | getAccount _ _ => Err fail
  | getAllBalances _ _ => Err fail
  | sendTokens _ _ _ _ _ _ => Err fail
  end.

(** A checker that allows everything. *)
Definition open_checker {X : Type} (q : checker_call X) : result X :=
  match q in checker_call X return result X with
  | checkAddress _ => Ok true
  | checkIp _ => Ok true
  | update _ => Ok tt
  end.

Definition scripted_world (accounts : list AccountData) (fail : Error)
  : World :=
  {| wstate := unit;
     respond := fun X c w =>
       match c in call X return result X * unit with
       | Checker q => (open_checker q, w)
       | Chain c => (scripted_chain accounts fail c, w)
       end;
     clock := fun _ => 0%Z |}.

(** A wallet without accounts, on the configured chain. *)
Definition empty_wallet_world : World :=
  scripted_world [] (new_Error "unavailable").

(** A node whose library reports the missing account itself. *)
Definition library_error : Error :=
  new_Error "Account 'int3faucet' does not exist on chain. Send some tokens there before trying to query sequence.".

Definition reporting_world : World :=
  scripted_world [ {| address := "int3faucet" |} ] library_error.

(** A transaction result as a value, with BigInt gas figures. *)
Definition sample_value : js_value :=
  VObject [ ("result",
             VObject [ ("height", VNumber 41);
                       ("transactionHash", VString "TX");
                       ("code", VNumber 0);
                       ("gasUsed", VBigInt 61234);
                       ("gasWanted", VBigInt 200000) ]) ].

(** The same value with no BigInt in it. *)
Definition plain_value : js_value :=
  VObject [ ("result", VArray [VNull; VBool true; VNumber (-3); VString "a b"]) ].
(* ================================================================== *)
(** * Running composed programs *)
(* ================================================================== *)

Section Running.
Context {E : World}.

Lemma run_bind {A B : Type} (p : prog A) (f : A -> prog B) (w : wstate E) :
  run (bind p f) w =
  match run p w with
  | (Ok a, tr, w1) =>
    let '(r, tr2, w2) := run (f a) w1 in (r, tr ++ tr2, w2)
  | (Err e, tr, w1) => (Err e, tr, w1)
  end.
Proof.
  revert w. induction p as [a | e | X c k IH]; intros w; simpl.
  - destruct (run (f a) w) as [[r tr2] w2]. reflexivity.
  - reflexivity.
  - destruct (respond E X c w) as [r w1]. rewrite IH.
    destruct (run (k r) w1) as [[[a | e] tr] w2]; [|reflexivity].
    destruct (run (f a) w2) as [[r' tr2] w3]. reflexivity.
Qed.

Lemma run_try_catch {A : Type} (p : prog A) (h : Error -> prog A)
  (w : wstate E) :
  run (try_catch p h) w =
  match run p w with
  | (Ok a, tr, w1) => (Ok a, tr, w1)
  | (Err e, tr, w1) =>
    let '(r, tr2, w2) := run (h e) w1 in (r, tr ++ tr2, w2)
  end.
Proof.
  revert w. induction p as [a | e | X c k IH]; intros w; simpl.
  - reflexivity.
  - destruct (run (h e) w) as [[r tr2] w2]. reflexivity.
  - destruct (respond E X c w) as [r w1]. rewrite IH.
    destruct (run (k r) w1) as [[[a | e] tr] w2]; [reflexivity|].
    destruct (run (h e) w2) as [[r' tr2] w3]. reflexivity.
Qed.

Lemma run_await {X : Type} (c : call X) (w : wstate E) :
  run (await c) w =
  let '(r, w1) := respond E X c w in (r, [Event (clock E w1) c r], w1).
Proof.
  unfold await. simpl. destruct (respond E X c w) as [[x | e] w1]; reflexivity.
Qed.

Lemma run_detached {X : Type} (c : call X) (w : wstate E) :
  run (detached c) w =
  let '(r, w1) := respond E X c w in
  (match r with Ok _ => Ok tt | Err e => Err e end,
   [Event (clock E w1) c r], w1).
Proof.
  unfold detached. simpl. destruct (respond E X c w) as [[x | e] w1]; reflexivity.
Qed.

End Running.

(** Symbolic execution of a program in an arbitrary world: expose the next
    call, split on its outcome, go on. *)
Ltac next_call :=
  match goal with
  | |- context [respond ?E ?X ?c ?w] =>
    let r := fresh "r" in
    let w' := fresh "w" in
    let Hr := fresh "Hr" in
    destruct (respond E X c w) as [r w'] eqn:Hr
  end.

Ltac exec_step :=
  cbn [run bind try_catch await detached fst snd] in *; next_call.

Ltac leaf :=
  let Heq := fresh "Heq" in
  intros Heq; apply pair_equal_spec in Heq as [Heq ?];
  apply pair_equal_spec in Heq as [? ?]; subst.

Ltac in_list H :=
  cbn in H;
  repeat match type of H with
  | _ ∈ [] => apply elem_of_nil in H; contradiction
  | _ ∈ _ :: _ => apply elem_of_cons in H; destruct H as [H | H]
  end.

(* ================================================================== *)
(** * Searching a text that is put together from pieces *)
(* ================================================================== *)

Lemma append_cons (c : ascii) (s t : string) :
  String c s +:+ t = String c (s +:+ t).
Proof. reflexivity. Qed.

Lemma append_nil (t : string) : EmptyString +:+ t = t.
Proof. reflexivity. Qed.

Lemma startsWith_barrier (c : ascii) (n : string) :
  has_char c n = false ->
  forall X Y, startsWith (X +:+ String c Y) n = startsWith X n.
Proof.
  induction n as [|d n IH]; intros Hc X Y; [by destruct X|].
  simpl in Hc. apply orb_false_iff in Hc as [Hd Hn].
  destruct X as [|x X]; simpl.
  - rewrite Ascii.eqb_sym, Hd. reflexivity.
  - rewrite IH by assumption. reflexivity.
Qed.

(** A character that does not occur in the text searched for separates
    the search: an occurrence lies on one side of it. *)
Lemma includes_barrier (c : ascii) (n : string) :
  has_char c n = false ->
  forall X Y, includes (X +:+ String c Y) n = includes X n || includes Y n.
Proof.
  intros Hc X Y. induction X as [|x X IH].
  - pose proof (startsWith_barrier c n Hc EmptyString Y) as H0.
    change (EmptyString +:+ String c Y) with (String c Y) in *.
    change (includes (String c Y) n)
      with (startsWith (String c Y) n || includes Y n).
    rewrite H0. destruct n; reflexivity.
  - change (includes (String x X +:+ String c Y) n)
      with (startsWith (String x X +:+ String c Y) n
            || includes (X +:+ String c Y) n).
    rewrite (startsWith_barrier c n Hc (String x X) Y), IH.
    simpl. by rewrite orb_assoc.
Qed.

(** The message of a re-wrapped missing-account error contains the
    phrase exactly when the recipient or the account address does. *)
Lemma missing_account_message (a fa : string) :
  mentions_missing_account (tx_failed a (account_missing fa)) =
  includes a missing_phrase || includes fa missing_phrase.
Proof.
  unfold mentions_missing_account, tx_failed, account_missing, message_text.
  cbn [message new_Error].
  rewrite !append_cons, !append_nil.
  cbn [truthy andb].
  cbn [includes startsWith Ascii.eqb Bool.eqb andb orb missing_phrase].
  fold missing_phrase.
  rewrite (includes_barrier ":" missing_phrase eq_refl).
  f_equal.
  cbn [includes startsWith Ascii.eqb Bool.eqb andb orb missing_phrase].
  fold missing_phrase.
  rewrite (includes_barrier "]" missing_phrase eq_refl).
  apply orb_false_r.
Qed.

(* ================================================================== *)
(** * Facts about traces *)
(* ================================================================== *)

Lemma broadcasts_app (t1 t2 : list event) :
  broadcasts (t1 ++ t2) = broadcasts t1 ++ broadcasts t2.
Proof. apply omap_app. Qed.

Lemma successes_app (t1 t2 : list event) :
  successes (t1 ++ t2) = successes t1 ++ successes t2.
Proof. apply omap_app. Qed.

Lemma updates_app (k : string) (t1 t2 : list event) :
  updates k (t1 ++ t2) = updates k t1 ++ updates k t2.
Proof. apply omap_app. Qed.

Lemma allowed_checks_app (kd : kind) (k : string) (t1 t2 : list event) :
  allowed_checks kd k (t1 ++ t2) = allowed_checks kd k t1 ++ allowed_checks kd k t2.
Proof. apply omap_app. Qed.

Lemma custodial_addresses_app (t1 t2 : list event) :
  custodial_addresses (t1 ++ t2) =
  custodial_addresses t1 ++ custodial_addresses t2.
Proof. apply omap_app. Qed.

Lemma account_lookups_app (t1 t2 : list event) :
  account_lookups (t1 ++ t2) = account_lookups t1 ++ account_lookups t2.
Proof. apply omap_app. Qed.

(** A trace of chain calls holds no checker call. *)
Lemma chain_only_updates (k : string) (tr : list event) :
  forallb is_chain_event tr = true -> updates k tr = [].
Proof.
  induction tr as [|[t X c r] tr IH]; [reflexivity|].
  simpl. intros [Hc Htr]%andb_true_iff.
  destruct c as [X q | X c]; [discriminate|]. by apply IH.
Qed.

Lemma chain_only_allowed (kd : kind) (k : string) (tr : list event) :
  forallb is_chain_event tr = true -> allowed_checks kd k tr = [].
Proof.
  induction tr as [|[t X c r] tr IH]; [reflexivity|].
  simpl. intros [Hc Htr]%andb_true_iff.
  destruct c as [X q | X c]; [discriminate|]. by apply IH.
Qed.

Lemma chain_only_no_raise (tr : list event) :
  forallb is_chain_event tr = true -> existsb check_raised tr = false.
Proof.
  induction tr as [|[t X c r] tr IH]; [reflexivity|].
  simpl. intros [Hc Htr]%andb_true_iff.
  destruct c as [X q | X c]; [discriminate|]. by apply IH.
Qed.

(* ================================================================== *)
(** * [sendTx] in any world *)
(* ================================================================== *)

Ltac sendTx_leaf :=
  leaf; cbn; refine (conj _ (conj _ (conj _ (conj _ _))));
  [ reflexivity
  | intros ? Hres; first [discriminate Hres
      | injection Hres as <-; eexists _, (Build_OrderToken _ _); cbn;
        rewrite ?String.eqb_refl; repeat split; reflexivity]
  | intros ? He; first [discriminate He
      | injection He as <-; eexists; split; [reflexivity|]; cbn;
        split; [reflexivity | lia]]
  | intros ? Hin Hne; in_list Hin; subst;
    first [congruence | repeat split; reflexivity]
  | intros ? Hin; in_list Hin;
    first [discriminate Hin | injection Hin as <-; repeat split; reflexivity
          | congruence ] ].

Section SendTx.
Context {E : World}.

(** Everything the later results need to know about one run of [sendTx]:
    it talks to the chain only; when it returns it has made exactly one
    broadcast, of the configured transfer, with the token it looked up;
    when it throws, the error is the re-wrapped one and nothing was
    accepted; a foreign chain identity and a missing account end it
    before any broadcast. *)
Lemma sendTx_trace cf rcpt (w : wstate E) r tr w' :
  run (sendTx cf rcpt) w = (r, tr, w') ->
  forallb is_chain_event tr = true
  /\ (forall res, r = Ok res ->
        exists fa tok, broadcasts tr = [transfer_of cf fa rcpt tok]
          /\ successes tr = [transfer_of cf fa rcpt tok]
          /\ custodial_addresses tr = [fa]
          /\ chain_ids tr = [chain_id cf]
          /\ account_lookups tr = [(fa, Some {| accountNumber := tok_accountNumber tok; sequence := tok_sequence tok |})])
  /\ (forall e, r = Err e ->
        exists e', e = tx_failed rcpt e' /\ successes tr = []
          /\ (length (broadcasts tr) <= 1)%nat)
  /\ (forall cid, cid ∈ chain_ids tr -> cid <> chain_id cf ->
        r = Err (tx_failed rcpt (chain_mismatch (chain_id cf) cid))
        /\ broadcasts tr = [] /\ account_lookups tr = [])
  /\ (forall addr, (addr, None) ∈ account_lookups tr ->
        r = Err (tx_failed rcpt (account_missing addr))
        /\ broadcasts tr = [] /\ custodial_addresses tr = [addr]).
Proof.
  unfold sendTx.
  exec_step. destruct r0 as [wl | e0]; cbn; [|sendTx_leaf].
  exec_step. destruct r0 as [accounts | e0]; cbn; [|sendTx_leaf].
  exec_step. destruct r0 as [cl | e0]; cbn; [|sendTx_leaf].
  exec_step. destruct r0 as [cid | e0]; cbn; [|sendTx_leaf].
  destruct (String.eqb cid (chain_id cf)) eqn:Hcid; cbn.
  2:{ apply String.eqb_neq in Hcid. sendTx_leaf. }
  apply String.eqb_eq in Hcid. subst cid.
  destruct accounts as [|fa rest]; cbn; [sendTx_leaf|].
  exec_step. destruct r0 as [[acc|] | e0]; cbn; [|sendTx_leaf..].
  destruct (amount_invalid (tx_amount cf)); cbn; [sendTx_leaf|].
  destruct (fee_invalid (tx_fee cf)); cbn; [sendTx_leaf|].
  exec_step. destruct r0 as [res | e0]; cbn; [|sendTx_leaf].
  destruct acc; sendTx_leaf.
Qed.

End SendTx.

(* ================================================================== *)
(** * The handler in any world *)
(* ================================================================== *)

#[local] Opaque sendTx.

Section Handler.
Context {E : World}.

Lemma run_send_handler cf a ip (w : wstate E) r tr w' :
  run (send_handler cf a ip) w = (r, tr, w') -> handled cf a ip w r tr w'.
Proof.
  unfold send_handler.
  destruct (truthy a) eqn:Ha; cbn [negb].
  2:{ cbn. leaf. by constructor. }
  destruct (startsWith a _) eqn:Hp; cbn [negb].
  2:{ cbn. leaf. by constructor. }
  exec_step. destruct r0 as [b1 | e].
  2:{ cbn. fold (on_error a e).
      destruct (mentions_missing_account e) eqn:Hm; cbn; leaf.
      all: replace (Ok _) with (@Ok Response (on_error a e)) by (unfold on_error; by rewrite Hm).
      all: by eapply handled_address_raised. }
  exec_step. destruct r0 as [b2 | e].
  2:{ cbn. destruct (mentions_missing_account e) eqn:Hm; cbn; leaf.
      all: replace (Ok _) with (@Ok Response (on_error a e)) by (unfold on_error; by rewrite Hm).
      all: by eapply handled_ip_raised. }
  cbn [run bind try_catch await detached].
  destruct (b1 && b2) eqn:Hb.
  2:{ assert (negb b1 || negb b2 = true) as -> by (by destruct b1, b2).
      cbn. leaf. by eapply handled_denied. }
  apply andb_true_iff in Hb as [-> ->]. cbn [negb orb].
  exec_step. destruct r0 as [[] | e].
  2:{ cbn. destruct (mentions_missing_account e) eqn:Hm; cbn; leaf.
      all: replace (Ok _) with (@Ok Response (on_error a e)) by (unfold on_error; by rewrite Hm).
      all: by eapply handled_origin_update_raised. }
  cbn [run bind try_catch].
  rewrite run_try_catch, run_bind.
  destruct (run (sendTx cf a) w2) as [[[res | e] trs] w3] eqn:Hs.
  - cbn. next_call. destruct r0 as [[] | e]; cbn.
    + leaf. eapply handled_sent; eauto.
    + destruct (mentions_missing_account e) eqn:Hm; cbn; leaf.
      all: replace (Ok _) with (@Ok Response (on_error a e)) by (unfold on_error; by rewrite Hm).
      all: rewrite app_nil_r.
      all: eapply handled_recipient_update_raised; eauto.
  - destruct (mentions_missing_account e) eqn:Hm; cbn; leaf.
    all: replace (Ok _) with (@Ok Response (on_error a e)) by (unfold on_error; by rewrite Hm).
    all: rewrite app_nil_r.
    all: eapply handled_failed; eauto.
Qed.

Lemma on_error_status a e : status (on_error a e) <> 200%nat.
Proof. unfold on_error. by destruct (mentions_missing_account e). Qed.

(** C4: a request whose recipient does not start with the configured
    prefix is answered with status 400 (the invalid-recipient signal)
    and makes no call at all: the trace is empty, so the frequency
    checker is neither read nor updated, the chain is not contacted, and
    the world (every quota record with it) is left exactly as it was. *)
Theorem C4_wrong_prefix_touches_nothing cf a ip (w : wstate E) :
  startsWith a (opt_prefix (sender_option cf)) = false ->
  run (send_handler cf a ip) w =
    (Ok (if truthy a then not_supported a else address_required), [], w)
  /\ status (if truthy a then not_supported a else address_required) = 400%nat.
Proof.
  intros Hp. unfold send_handler. rewrite Hp.
  destruct (truthy a); split; reflexivity.
Qed.

(** C5: for a request that passed validation, a chain call (the dispatch
    step) is made only if the address check and the origin check both
    returned [true]; and when both checks return a decision and one of
    them is [false], the answer is 429 (quota exceeded), the two checks
    are the only calls made, and no transfer is attempted. *)
Theorem C5_both_checks_gate_dispatch cf a ip (w : wstate E) r tr w' :
  truthy a = true ->
  startsWith a (opt_prefix (sender_option cf)) = true ->
  run (send_handler cf a ip) w = (r, tr, w') ->
  (existsb is_chain_event tr = true ->
     exists w1 w2,
       respond E _ (Checker (checkAddress a)) w = (Ok true, w1)
       /\ respond E _ (Checker (checkIp ip)) w1 = (Ok true, w2))
  /\ (forall b1 b2 w1 w2,
       respond E _ (Checker (checkAddress a)) w = (Ok b1, w1) ->
       respond E _ (Checker (checkIp ip)) w1 = (Ok b2, w2) ->
       b1 && b2 = false ->
       r = Ok too_often
       /\ tr = [Event (clock E w1) (Checker (checkAddress a)) (Ok b1);
                Event (clock E w2) (Checker (checkIp ip)) (Ok b2)]
       /\ broadcasts tr = [] /\ existsb is_chain_event tr = false
       /\ w' = w2).
Proof.
  intros Ha Hp Hrun. apply run_send_handler in Hrun.
  destruct Hrun as [ | | e w1 _ _ H1 | b e w1 w2 _ _ H1 H2
    | b1 b2 w1 w2 _ _ H1 H2 Hb | w1 w2 e w3 _ _ H1 H2 H3
    | w1 w2 w3 e trs w4 _ _ H1 H2 H3 Hs
    | w1 w2 w3 res trs w4 e w5 _ _ H1 H2 H3 Hs H4
    | w1 w2 w3 res trs w4 w5 _ _ H1 H2 H3 Hs H4 ]; try congruence.
  - split; [discriminate|]. intros ? ? ? ? H1'. congruence.
  - split; [discriminate|]. intros ? ? ? ? H1' H2'.
    rewrite H1 in H1'. injection H1' as <- <-. congruence.
  - split; [discriminate|]. intros ? ? ? ? H1' H2' _.
    rewrite H1 in H1'. injection H1' as <- <-.
    rewrite H2 in H2'. injection H2' as <- <-. done.
  - split; [eauto|]. intros ? ? ? ? H1' H2' Hb.
    rewrite H1 in H1'. injection H1' as <- <-.
    rewrite H2 in H2'. injection H2' as <- <-. discriminate.
  - split; [eauto|]. intros ? ? ? ? H1' H2' Hb.
    rewrite H1 in H1'. injection H1' as <- <-.
    rewrite H2 in H2'. injection H2' as <- <-. discriminate.
  - split; [eauto|]. intros ? ? ? ? H1' H2' Hb.
    rewrite H1 in H1'. injection H1' as <- <-.
    rewrite H2 in H2'. injection H2' as <- <-. discriminate.
  - split; [eauto|]. intros ? ? ? ? H1' H2' Hb.
    rewrite H1 in H1'. injection H1' as <- <-.
    rewrite H2 in H2'. injection H2' as <- <-. discriminate.
Qed.

(** C7: when an admission check raises instead of returning a decision,
    the request is denied: the answer is the [catch] block's failure
    response (status 400 or 500, never 200), no chain call and no
    broadcast is made, and [update] is not called for any subject. *)
Theorem C7_check_error_fails_closed cf a ip (w : wstate E) r tr w' :
  run (send_handler cf a ip) w = (r, tr, w') ->
  existsb check_raised tr = true ->
  (exists e, r = Ok (on_error a e))
  /\ (forall resp, r = Ok resp -> status resp <> 200%nat)
  /\ existsb is_chain_event tr = false
  /\ broadcasts tr = []
  /\ (forall k, updates k tr = []).
Proof.
  intros Hrun Hraised. apply run_send_handler in Hrun.
  destruct Hrun as [ | | e w1 _ _ H1 | b e w1 w2 _ _ H1 H2
    | b1 b2 w1 w2 _ _ H1 H2 Hb | w1 w2 e w3 _ _ H1 H2 H3
    | w1 w2 w3 e trs w4 _ _ H1 H2 H3 Hs
    | w1 w2 w3 res trs w4 e w5 _ _ H1 H2 H3 Hs H4
    | w1 w2 w3 res trs w4 w5 _ _ H1 H2 H3 Hs H4 ];
    try discriminate Hraised.
  - split; [eauto|]. split; [|done].
    intros ? [= <-]. apply on_error_status.
  - split; [eauto|]. split; [|done].
    intros ? [= <-]. apply on_error_status.
  - apply sendTx_trace in Hs as (Hc & _).
    cbn in Hraised. by rewrite (chain_only_no_raise _ Hc) in Hraised.
  - apply sendTx_trace in Hs as (Hc & _).
    cbn in Hraised. rewrite existsb_app in Hraised.
    rewrite (chain_only_no_raise _ Hc) in Hraised. discriminate.
  - apply sendTx_trace in Hs as (Hc & _).
    cbn in Hraised. rewrite existsb_app in Hraised.
    rewrite (chain_only_no_raise _ Hc) in Hraised. discriminate.
Qed.

(** C8: a request answered with status 200 made exactly one broadcast,
    and the chain accepted it: a transfer from the first account of the
    wallet to the requested recipient, of the one configured coin
    [tx.amount] with the configured fee and gas [tx.fee]; neither
    depends on the request. *)
Theorem C8_one_fixed_transfer cf a ip (w : wstate E) r tr w' :
  run (send_handler cf a ip) w = (Ok r, tr, w') ->
  status r = 200%nat ->
  exists fa tok,
    broadcasts tr = [ {| tr_from := fa; tr_to := a;
                         tr_amount := [tx_amount cf]; tr_fee := tx_fee cf;
                         tr_token := tok |} ]
    /\ successes tr = broadcasts tr
    /\ custodial_addresses tr = [fa].
Proof.
  intros Hrun Hst. apply run_send_handler in Hrun.
  inversion Hrun as [ | | e w1 _ _ H1 | b e w1 w2 _ _ H1 H2
    | b1 b2 w1 w2 _ _ H1 H2 Hb | w1 w2 e w3 _ _ H1 H2 H3
    | w1 w2 w3 e trs w4 _ _ H1 H2 H3 Hs
    | w1 w2 w3 res trs w4 e w5 _ _ H1 H2 H3 Hs H4
    | w1 w2 w3 res trs w4 w5 _ _ H1 H2 H3 Hs H4 ]; subst;
    try discriminate Hst;
    try (by destruct (on_error_status a e)).
  apply sendTx_trace in Hs as (_ & Hok & _).
  destruct (Hok res eq_refl) as (fa & tok & Hb & Hsu & Hcu & _).
  exists fa, tok.
  rewrite !broadcasts_app, !successes_app, !custodial_addresses_app.
  rewrite Hb, Hsu, Hcu. unfold transfer_of. cbn. done.
Qed.

(** C9 (as the code has it): when [sendTx] finds no account at the
    custodial address, the handler answers with the generic 500 failure
    unless the recipient or the custodial address itself contains the
    text "does not exist on chain"; if one of them does, the re-wrapped
    message contains it too and the 400 branch is taken. *)
Theorem C9_missing_account_answer cf a ip (w : wstate E) r tr w' fa :
  run (send_handler cf a ip) w = (r, tr, w') ->
  (fa, None) ∈ account_lookups tr ->
  r = Ok (if includes a missing_phrase || includes fa missing_phrase
          then not_on_chain a else send_failed).
Proof.
  intros Hrun Hin. apply run_send_handler in Hrun.
  destruct Hrun as [ | | e w1 _ _ H1 | b e w1 w2 _ _ H1 H2
    | b1 b2 w1 w2 _ _ H1 H2 Hb | w1 w2 e w3 _ _ H1 H2 H3
    | w1 w2 w3 e trs w4 _ _ H1 H2 H3 Hs
    | w1 w2 w3 res trs w4 e w5 _ _ H1 H2 H3 Hs H4
    | w1 w2 w3 res trs w4 w5 _ _ H1 H2 H3 Hs H4 ];
    try (by in_list Hin).
  - apply sendTx_trace in Hs as (_ & _ & _ & _ & Hmiss).
    rewrite account_lookups_app in Hin. cbn in Hin.
    destruct (Hmiss fa Hin) as ([= ->] & _).
    unfold on_error. by rewrite missing_account_message.
  - apply sendTx_trace in Hs as (_ & _ & _ & _ & Hmiss).
    rewrite !account_lookups_app in Hin. cbn in Hin.
    rewrite app_nil_r in Hin.
    by destruct (Hmiss fa Hin) as ([=] & _).
  - apply sendTx_trace in Hs as (_ & _ & _ & _ & Hmiss).
    rewrite !account_lookups_app in Hin. cbn in Hin.
    rewrite app_nil_r in Hin.
    by destruct (Hmiss fa Hin) as ([=] & _).
Qed.

End Handler.

(* ================================================================== *)
(** * [sendTx]: the chain identity *)
(* ================================================================== *)

(** C6: when the connected chain reports an identity other than the
    configured [chain_id], [sendTx] throws the (re-wrapped) mismatch
    error, and it does so before looking up the account and before any
    broadcast. *)
Theorem C6_chain_mismatch_stops_dispatch {E : World} cf rcpt (w : wstate E)
  r tr w' cid :
  run (sendTx cf rcpt) w = (r, tr, w') ->
  cid ∈ chain_ids tr ->
  cid <> chain_id cf ->
  r = Err (tx_failed rcpt (chain_mismatch (chain_id cf) cid))
  /\ broadcasts tr = []
  /\ account_lookups tr = [].
Proof.
  intros Hrun Hin Hne.
  apply sendTx_trace in Hrun as (_ & _ & _ & Hmis & _). by apply Hmis.
Qed.

(* ================================================================== *)
(** * [/config.json] in any world *)
(* ================================================================== *)

Ltac config_leaf :=
  let Heq := fresh "Heq" in
  let Hr := fresh "Hr" in
  intros Heq; apply pair_equal_spec in Heq as [Heq <-];
  apply pair_equal_spec in Heq as [Hr <-]; injection Hr as <-; cbn;
  first [ discriminate | intros _; eexists _, _; repeat split; reflexivity ].

(** A successful answer is the project object extended with the address
    of the wallet's first account and the balance found for it. *)
Lemma config_json_answer {E : World} cf (w : wstate E) r tr w' :
  run (config_json cf) w = (Ok r, tr, w') ->
  status r = 200%nat ->
  exists fa bal,
    custodial_addresses tr = [fa]
    /\ balance_answers tr = [bal]
    /\ r = {| status := 200;
              body := JsonObject
                (project_view (project cf) fa bal (balance_denom cf)) |}.
Proof.
  unfold config_json.
  exec_step. destruct r0 as [wl | e0]; cbn; [|config_leaf].
  exec_step. destruct r0 as [accounts | e0]; cbn; [|config_leaf].
  destruct accounts as [|fa rest]; cbn; [config_leaf|].
  exec_step. destruct r0 as [cl | e0]; cbn; [|config_leaf].
  exec_step. destruct r0 as [bal | e0]; cbn; [|config_leaf].
  config_leaf.
Qed.

Lemma project_view_dom p fa bal d :
  dom (project_view p fa bal d) = dom p ∪ {[ "faucetAddress"; "faucetBalance" ]}.
Proof.
  unfold project_view. rewrite !dom_insert_L.
  apply set_eq. intros k.
  rewrite !elem_of_union, !elem_of_singleton. tauto.
Qed.

Lemma project_view_other p fa bal d k :
  k <> "faucetAddress" -> k <> "faucetBalance" ->
  project_view p fa bal d !! k = p !! k.
Proof.
  intros H1 H2. unfold project_view.
  rewrite lookup_insert_ne by done. by rewrite lookup_insert_ne.
Qed.

(** C10: a successful [/config.json] answer is an object whose keys are
    the keys of [project] plus [faucetAddress] and [faucetBalance]; its
    other entries are those of [project], [faucetAddress] is the address
    of the wallet's first account and [faucetBalance] is computed from
    the reported balances and the transfer denomination.  The answer is
    therefore the same for two configurations that agree on [project]
    and on the denomination, whatever their mnemonic, chain, sender and
    limit settings, as long as the same address and balances are
    observed. *)
Theorem C10_config_answer_shows_project_only {E1 E2 : World} cf1 cf2
  (w1 : wstate E1) (w2 : wstate E2) r1 r2 tr1 tr2 w1' w2' :
  run (config_json cf1) w1 = (Ok r1, tr1, w1') ->
  status r1 = 200%nat ->
  (exists o fa bal,
     body r1 = JsonObject o
     /\ dom o = dom (project cf1) ∪ {[ "faucetAddress"; "faucetBalance" ]}
     /\ (forall k, k <> "faucetAddress" -> k <> "faucetBalance" ->
          o !! k = project cf1 !! k)
     /\ custodial_addresses tr1 = [fa]
     /\ o !! "faucetAddress" = Some fa
     /\ balance_answers tr1 = [bal]
     /\ o !! "faucetBalance" = Some (faucetBalance bal (balance_denom cf1)))
  /\ (run (config_json cf2) w2 = (Ok r2, tr2, w2') ->
      status r2 = 200%nat ->
      project cf2 = project cf1 ->
      coin_denom (tx_amount cf2) = coin_denom (tx_amount cf1) ->
      custodial_addresses tr2 = custodial_addresses tr1 ->
      balance_answers tr2 = balance_answers tr1 ->
      r2 = r1).
Proof.
  intros Hrun1 Hst1.
  destruct (config_json_answer _ _ _ _ _ Hrun1 Hst1) as (fa & bal & Hfa & Hbal & ->).
  split.
  - exists (project_view (project cf1) fa bal (balance_denom cf1)), fa, bal.
    split; [reflexivity|]. split; [apply project_view_dom|].
    split; [apply project_view_other|]. split; [assumption|].
    split; [|split; [assumption|]].
    + unfold project_view. rewrite lookup_insert_ne by done.
      apply lookup_insert_eq.
    + unfold project_view. apply lookup_insert_eq.
  - intros Hrun2 Hst2 Hp Hd Hfa2 Hbal2.
    destruct (config_json_answer _ _ _ _ _ Hrun2 Hst2)
      as (fa2 & bal2 & Hfa' & Hbal' & ->).
    rewrite Hfa, Hfa' in Hfa2. rewrite Hbal, Hbal' in Hbal2.
    injection Hfa2 as ->. injection Hbal2 as ->.
    unfold balance_denom. rewrite Hp, Hd. reflexivity.
Qed.

(* ================================================================== *)
(** * The faucet's world *)
(* ================================================================== *)

Lemma filter_recent_mono (t T : Z) (l : list Z) :
  (t <= T)%Z -> filter (recent T) (filter (recent t) l) = filter (recent T) l.
Proof.
  intros Hle. induction l as [|x l IH]; [reflexivity|].
  rewrite !filter_cons. destruct (decide (recent t x)) as [Ht | Ht].
  - rewrite filter_cons. destruct (decide (recent T x)); by rewrite IH.
  - rewrite IH. destruct (decide (recent T x)) as [HT | HT]; [|reflexivity].
    unfold recent in *. lia.
Qed.

Lemma record_of_count_event_eq t st k :
  record_of (count_event t st k) k = live t st k ++ [t].
Proof. unfold record_of, count_event. by rewrite lookup_insert_eq. Qed.

Lemma record_of_count_event_ne t st k k' :
  k <> k' -> record_of (count_event t st k) k' = record_of st k'.
Proof. intros Hne. unfold record_of, count_event. by rewrite lookup_insert_ne. Qed.

(** Counting an event uses up one unit of the subject's allowance for as
    long as the event stays within the window. *)
Lemma allowance_count_event_eq limit t T st k :
  (t <= T)%Z -> recent T t ->
  allowance limit T (count_event t st k) k = (allowance limit T st k - 1)%Z.
Proof.
  intros Hle Hrec. unfold allowance, live.
  rewrite record_of_count_event_eq. unfold live.
  rewrite filter_app, filter_recent_mono by assumption.
  rewrite filter_cons, decide_True by assumption.
  rewrite length_app. simpl. lia.
Qed.

Lemma allowance_count_event_ne limit t T st k k' :
  k <> k' -> allowance limit T (count_event t st k) k' = allowance limit T st k'.
Proof.
  intros Hne. unfold allowance, live. by rewrite record_of_count_event_ne.
Qed.

Section Faucet.
Context (cf : Config) (C : ChainModel).
#[local] Abbreviation FW := (faucet_world cf C).

Lemma tick_now (w : faucet_state C) : (now w <= now (tick w))%Z.
Proof. unfold tick. simpl. lia. Qed.

(** A call moves the clock forward, never back. *)
Lemma respond_now {X} (c : call X) (w : wstate FW) r w' :
  respond FW X c w = (r, w') -> now w' = now (tick w) /\ (now w <= now w')%Z.
Proof.
  simpl. unfold faucet_respond. intros H.
  assert (now w' = now (tick w)) as Hn.
  { destruct c as [X q | X c].
    - destruct (checker_respond cf q _ _) as [r0 st]. by injection H as _ <-.
    - destruct (chain_respond C X c _) as [r0 cs]. by injection H as _ <-. }
  split; [assumption|]. rewrite Hn. apply tick_now.
Qed.

(** A chain call leaves the quota store alone. *)
Lemma respond_chain_store {X} (c : chain_call X) (w : wstate FW) r w' :
  respond FW X (Chain c) w = (r, w') -> store w' = store w.
Proof.
  simpl. unfold faucet_respond. intros H.
  destruct (chain_respond C X c _) as [r0 cs]. by injection H as _ <-.
Qed.

(** An admission check tests and counts in the one call. *)
Lemma respond_checkAddress a (w : wstate FW) r w' :
  respond FW _ (Checker (checkAddress a)) w = (r, w') ->
  r = Ok (below_limit (limit_address cf) (now w') (store w) a)
  /\ store w' = (if below_limit (limit_address cf) (now w') (store w) a
                 then count_event (now w') (store w) a else store w).
Proof.
  simpl. unfold faucet_respond, checkAndReserve. simpl.
  destruct (below_limit _ _ _ _) eqn:Hb; intros [= <- <-]; simpl;
    by rewrite Hb.
Qed.

Lemma respond_checkIp ip (w : wstate FW) r w' :
  respond FW _ (Checker (checkIp ip)) w = (r, w') ->
  r = Ok (below_limit (limit_ip cf) (now w') (store w) ip)
  /\ store w' = (if below_limit (limit_ip cf) (now w') (store w) ip
                 then count_event (now w') (store w) ip else store w).
Proof.
  simpl. unfold faucet_respond, checkAndReserve. simpl.
  destruct (below_limit _ _ _ _) eqn:Hb; intros [= <- <-]; simpl;
    by rewrite Hb.
Qed.

(** [update] confirms and changes nothing. *)
Lemma respond_update k (w : wstate FW) r w' :
  respond FW _ (Checker (update k)) w = (r, w') ->
  r = Ok tt /\ store w' = store w.
Proof. simpl. unfold faucet_respond. simpl. by intros [= <- <-]. Qed.

(** A run that made chain calls only leaves the quota store alone. *)
Lemma run_chain_only_store {R} (p : prog R) (w : wstate FW) r tr w' :
  run p w = (r, tr, w') -> forallb is_chain_event tr = true ->
  store w' = store w.
Proof.
  revert w r tr w'.
  induction p as [a | e | X c k IH]; intros w r tr w'; cbn [run].
  - by intros [= _ _ <-].
  - by intros [= _ _ <-].
  - destruct (respond FW X c w) as [r0 w1] eqn:Hr.
    destruct (run (k r0) w1) as [[r1 tr1] w2] eqn:Hk.
    leaf. simpl. intros [Hc Htr]%andb_true_iff.
    destruct c as [X q | X c]; [discriminate|].
    rewrite (IH _ _ _ _ _ Hk Htr). by apply (respond_chain_store c w r0).
Qed.

(** The clock only moves forward during a run, and every call of the run
    is stamped between its start and its end. *)
Lemma run_now {R} (p : prog R) (w : wstate FW) r tr w' :
  run p w = (r, tr, w') ->
  (now w <= now w')%Z
  /\ Forall (fun e => (now w <= event_time e <= now w')%Z) tr.
Proof.
  revert w r tr w'.
  induction p as [a | e | X c k IH]; intros w r tr w'; cbn [run].
  - intros [= _ <- <-]. split; [lia | constructor].
  - intros [= _ <- <-]. split; [lia | constructor].
  - destruct (respond FW X c w) as [r0 w1] eqn:Hr.
    destruct (run (k r0) w1) as [[r1 tr1] w2] eqn:Hk.
    leaf. apply (respond_now c w) in Hr as [_ Hle].
    apply IH in Hk as [Hle' Hall]. split; [lia|].
    constructor; [simpl; lia|].
    eapply Forall_impl; [exact Hall|]. simpl. intros; lia.
Qed.

(** C3: when a request passed validation and both checks and its
    broadcast failed, the unit each check reserved stays consumed.  The
    address check counted the recipient at [t1], the origin check
    counted the origin at [t2], and nothing the handler does afterwards
    takes an event back: the store it leaves is the one before the
    request with these two events added.  For as long as the events are
    within the window, the allowance of the recipient and the allowance
    of the origin are each one lower than they would have been. *)
Theorem C3_failed_broadcast_keeps_both_reservations a ip (w : wstate FW)
  r tr w' :
  a <> ip ->
  run (send_handler cf a ip) w = (r, tr, w') ->
  broadcasts tr <> [] ->
  successes tr = [] ->
  exists t1 t2 e,
    r = Ok (on_error a e)
    /\ (now w <= t1 <= t2)%Z /\ (t2 <= now w')%Z
    /\ allowed_checks Address a tr = [t1]
    /\ allowed_checks Origin ip tr = [t2]
    /\ store w' = count_event t2 (count_event t1 (store w) a) ip
    /\ (forall T, (t2 <= T)%Z -> recent T t1 ->
         allowance (limit_address cf) T (store w') a
         = (allowance (limit_address cf) T (store w) a - 1)%Z
         /\ allowance (limit_ip cf) T (store w') ip
           = (allowance (limit_ip cf) T (store w) ip - 1)%Z).
Proof.
  intros Hne Hrun Hb Hs. apply run_send_handler in Hrun.
  destruct Hrun as [ | | e w1 _ _ H1 | b e w1 w2 _ _ H1 H2
    | b1 b2 w1 w2 _ _ H1 H2 Hb' | w1 w2 e w3 _ _ H1 H2 H3
    | w1 w2 w3 e trs w4 _ _ H1 H2 H3 Hrun
    | w1 w2 w3 res trs w4 e w5 _ _ H1 H2 H3 Hrun H4
    | w1 w2 w3 res trs w4 w5 _ _ H1 H2 H3 Hrun H4 ];
    try (by destruct Hb);
    try (apply sendTx_trace in Hrun as (_ & Hok & _);
         destruct (Hok res eq_refl) as (fa & tok & _ & Hsu & _);
         rewrite !successes_app, Hsu in Hs; discriminate Hs).
  pose proof (sendTx_trace _ _ _ _ _ _ Hrun) as (Hc & _).
  pose proof (run_chain_only_store _ _ _ _ _ Hrun Hc) as Hst4.
    pose proof (run_now _ _ _ _ _ Hrun) as [Hn4 _].
    destruct (respond_now _ _ _ _ H1) as [_ Hn1].
    destruct (respond_now _ _ _ _ H2) as [_ Hn2].
    destruct (respond_now _ _ _ _ H3) as [_ Hn3].
    apply respond_checkAddress in H1 as [[= Hb1] Hs1].
    apply respond_checkIp in H2 as [[= Hb2] Hs2].
    apply respond_update in H3 as [_ Hs3].
    rewrite <- Hb1 in Hs1. rewrite <- Hb2 in Hs2.
    assert (store w4 = count_event (now w2) (count_event (now w1) (store w) a) ip)
      as Hst by (rewrite Hst4, Hs3, Hs2, Hs1; reflexivity).
    exists (now w1), (now w2), e. split; [reflexivity|].
    split; [lia|]. split; [lia|].
    split.
    { rewrite allowed_checks_app, (chain_only_allowed _ _ trs Hc).
      cbn. by rewrite bool_decide_eq_true_2. }
    split.
    { rewrite allowed_checks_app, (chain_only_allowed _ _ trs Hc).
      cbn. by rewrite bool_decide_eq_true_2. }
    split; [exact Hst|]. rewrite Hst. intros T HT Hrec. split.
    + rewrite allowance_count_event_ne by congruence.
      apply allowance_count_event_eq; [lia | assumption].
    + rewrite allowance_count_event_eq; [| assumption | unfold recent in *; lia].
      by rewrite allowance_count_event_ne.
Qed.

End Faucet.

(* ================================================================== *)
(** * Admission under overlapping requests *)
(* ================================================================== *)

Lemma length_filter_impl {A} (P Q : A -> Prop)
  `{!forall x, Decision (P x)} `{!forall x, Decision (Q x)} (l : list A) :
  (forall x, P x -> Q x) ->
  (length (filter P l) <= length (filter Q l))%nat.
Proof.
  intros HPQ. induction l as [|x l IH]; [done|].
  rewrite !filter_cons.
  destruct (decide (P x)) as [HP | HP].
  - rewrite decide_True by auto. simpl. lia.
  - destruct (decide (Q x)); simpl; lia.
Qed.

(** One more admission keeps the limit, if at its instant fewer than
    [L] earlier ones were within the window. *)
Lemma quota_add (U : list Z) (c L : Z) :
  (forall t, (Z.of_nat (length (filter (in_window t) U)) <= Z.max 0 L)%Z) ->
  (Z.of_nat (length (filter (recent c) U)) < L)%Z ->
  forall t, (Z.of_nat (length (filter (in_window t) (U ++ [c]))) <= Z.max 0 L)%Z.
Proof.
  intros Hq Hc t. rewrite filter_app, length_app, filter_cons.
  destruct (decide (in_window t c)) as [Hin | Hout]; simpl.
  - assert (length (filter (in_window t) U) <= length (filter (recent c) U))%nat.
    { apply length_filter_impl. intros x Hx. unfold in_window, recent in *. lia. }
    lia.
  - specialize (Hq t). lia.
Qed.

Lemma allowed_checks_snoc kd k tr t {X} (c : call X) r :
  allowed_checks kd k (tr ++ [Event t c r]) =
  allowed_checks kd k tr ++ match allowed_time kd k (Event t c r) with
                            | Some x => [x]
                            | None => []
                            end.
Proof. rewrite allowed_checks_app. reflexivity. Qed.

Section Admission.
Context (cf : Config) (C : ChainModel).
#[local] Abbreviation FW := (faucet_world cf C).

(** An admission check of either kind is one call: it answers with the
    test and, when the test passed, has counted the event. *)
Lemma respond_check kd k (w : wstate FW) r w' :
  respond FW _ (check_call kd k) w = (r, w') ->
  r = Ok (below_limit (limit_of cf kd) (now w') (store w) k)
  /\ store w' = (if below_limit (limit_of cf kd) (now w') (store w) k
                 then count_event (now w') (store w) k else store w).
Proof.
  destruct kd; [apply (respond_checkAddress cf C) | apply (respond_checkIp cf C)].
Qed.

(** One call keeps the stored records in step with the admissions, and
    the admissions within the limit. *)
Lemma respond_admission {X} (c : call X) (w : wstate FW) r w1 tr0 :
  respond FW X c w = (r, w1) ->
  reserved_in_store tr0 w ->
  admitted_within_limit cf tr0 ->
  reserved_in_store (tr0 ++ [Event (now w1) c r]) w1
  /\ admitted_within_limit cf (tr0 ++ [Event (now w1) c r]).
Proof.
  intros Hr Hinv Hq.
  destruct (respond_now cf C c w r w1 Hr) as [_ Hle].
  assert (forall kd k, allowed_time kd k (Event (now w1) c r) = None ->
            store w1 = store w \/ (exists k', k' <> k
              /\ store w1 = count_event (now w1) (store w) k')
            \/ store w1 = count_event (now w1) (store w) k) as Hquiet.
  { intros kd k Hnone. destruct c as [X q | X c].
    - destruct q as [a | ip | k0].
      + destruct (respond_checkAddress cf C _ _ _ _ Hr) as [_ Hs].
        destruct (below_limit _ _ _ _); [|by left].
        destruct (decide (a = k)) as [-> | Hak]; [by right; right|].
        right; left. by exists a.
      + destruct (respond_checkIp cf C _ _ _ _ Hr) as [_ Hs].
        destruct (below_limit _ _ _ _); [|by left].
        destruct (decide (ip = k)) as [-> | Hak]; [by right; right|].
        right; left. by exists ip.
      + left. by destruct (respond_update cf C _ _ _ _ Hr).
    - left. by apply (respond_chain_store cf C) in Hr. }
  assert (forall kd k, allowed_time kd k (Event (now w1) c r) = Some (now w1) ->
            below_limit (limit_of cf kd) (now w1) (store w) k = true
            /\ store w1 = count_event (now w1) (store w) k) as Hloud.
  { intros kd k Hsome. destruct c as [X q | X c]; [|discriminate].
    destruct q as [a | ip | k0]; [| |discriminate].
    - destruct (respond_checkAddress cf C _ _ _ _ Hr) as [-> Hs].
      cbn in Hsome. destruct kd; [|discriminate].
      destruct (below_limit _ _ _ a) eqn:Hb; [|discriminate].
      cbn in Hsome. destruct (decide (a = k)) as [-> | Hne];
        [|rewrite bool_decide_eq_false_2 in Hsome by done; discriminate].
      split; [exact Hb | exact Hs].
    - destruct (respond_checkIp cf C _ _ _ _ Hr) as [-> Hs].
      cbn in Hsome. destruct kd; [discriminate|].
      destruct (below_limit _ _ _ ip) eqn:Hb; [|discriminate].
      cbn in Hsome. destruct (decide (ip = k)) as [-> | Hne];
        [|rewrite bool_decide_eq_false_2 in Hsome by done; discriminate].
      split; [exact Hb | exact Hs]. }
  assert (forall kd k, allowed_time kd k (Event (now w1) c r) = None
            \/ allowed_time kd k (Event (now w1) c r) = Some (now w1)) as Hcase.
  { intros kd k. destruct c as [X q | X c]; [|by left].
    cbn. destruct (checker_allowed kd k q r); [by right | by left]. }
  split.
  - intros kd k T HT. rewrite allowed_checks_snoc.
    destruct (Hcase kd k) as [Hnone | Hsome].
    + rewrite Hnone, app_nil_r.
      destruct (Hquiet kd k Hnone) as [-> | [(k' & Hk' & ->) | ->]].
      * apply Hinv. lia.
      * rewrite record_of_count_event_ne by assumption. apply Hinv. lia.
      * rewrite record_of_count_event_eq. unfold live.
        rewrite filter_app, length_app, filter_recent_mono by assumption.
        specialize (Hinv kd k T). lia.
    + rewrite Hsome. destruct (Hloud kd k Hsome) as [_ ->].
      rewrite record_of_count_event_eq. unfold live.
      rewrite !filter_app, !length_app, filter_recent_mono by assumption.
      specialize (Hinv kd k T). lia.
  - intros kd k. rewrite allowed_checks_snoc.
    destruct (Hcase kd k) as [Hnone | Hsome].
    + rewrite Hnone, app_nil_r. apply Hq.
    + rewrite Hsome. destruct (Hloud kd k Hsome) as [Hb _].
      apply quota_add; [apply Hq|].
      unfold below_limit in Hb. apply bool_decide_eq_true in Hb.
      unfold live in Hb. specialize (Hinv kd k (now w1) Hle). lia.
Qed.

Lemma step_admission {R} (i : nat) (pool : list (prog R)) (w : wstate FW)
  pool' tr w' tr0 :
  step_pool i pool w = (pool', tr, w') ->
  reserved_in_store tr0 w ->
  admitted_within_limit cf tr0 ->
  reserved_in_store (tr0 ++ tr) w' /\ admitted_within_limit cf (tr0 ++ tr).
Proof.
  unfold step_pool.
  destruct (pool !! i) as [[a | e | X c k]|];
    try (intros [= <- <- <-]; rewrite app_nil_r; by split).
  destruct (respond FW X c w) as [r w1] eqn:Hr. leaf.
  by apply (respond_admission c w).
Qed.

(** Whatever is in flight and however it is scheduled, the stored
    records stay in step with the admissions and the admissions stay
    within the limit. *)
Lemma pool_admission {R} (sched : list nat) (pool : list (prog R))
  (w : wstate FW) pool' tr w' tr0 :
  run_pool sched pool w = (pool', tr, w') ->
  reserved_in_store tr0 w ->
  admitted_within_limit cf tr0 ->
  reserved_in_store (tr0 ++ tr) w' /\ admitted_within_limit cf (tr0 ++ tr).
Proof.
  revert pool w pool' tr w' tr0.
  induction sched as [|i sched IH]; intros pool w pool' tr w' tr0;
    cbn [run_pool].
  - intros [= <- <- <-]. rewrite app_nil_r. by split.
  - destruct (step_pool i pool w) as [[pool1 tr1] w1] eqn:Hstep.
    destruct (run_pool sched pool1 w1) as [[pool2 tr2] w2] eqn:Hrest.
    leaf. intros Hinv Hq. rewrite app_assoc.
    destruct (step_admission _ _ _ _ _ _ _ Hstep Hinv Hq) as [Hinv1 Hq1].
    by apply (IH _ _ _ _ _ _ Hrest).
Qed.

(** C2: an admission check is one call that tests the quota and, when
    the test passes, counts the event before anything else can run; and
    so, for any requests in flight, from any stored records, over any
    chain and under any interleaving of the requests at their calls, the
    admission checks of one kind on one subject that returned [true]
    within any 24-hour window are at most as many as the limit of that
    kind. *)
Theorem C2_admission_counts_and_never_exceeds (rqs : list Request)
  (sched : list nat) (w : wstate FW) :
  (forall kd k (w0 : wstate FW),
     let t := now (tick w0) in
     let allowed := below_limit (limit_of cf kd) t (store w0) k in
     exists w1,
       respond FW _ (check_call kd k) w0 = (Ok allowed, w1)
       /\ now w1 = t
       /\ store w1 = (if allowed then count_event t (store w0) k
                      else store w0))
  /\ (forall kd k t,
       (Z.of_nat (length (filter (in_window t) (allowed_checks kd k
          (trace_of (run_pool sched (map (handle cf) rqs) w)))))
        <= Z.max 0 (limit_of cf kd))%Z).
Proof.
  split.
  - intros kd k w0 t allowed.
    destruct (respond FW _ (check_call kd k) w0) as [r w1] eqn:Hr.
    destruct (respond_now cf C _ _ _ _ Hr) as [Hn _].
    destruct (respond_check _ _ _ _ _ Hr) as [-> Hs].
    exists w1. subst t allowed. rewrite <- Hn. by split.
  - destruct (run_pool sched (map (handle cf) rqs) w) as [[pool' tr] w'] eqn:Hrun.
    apply (pool_admission _ _ _ _ _ _ [] Hrun).
    + intros kd k T _. cbn. lia.
    + intros kd k t. cbn. lia.
Qed.

End Admission.
(* ================================================================== *)
(** * The results at concrete requests *)
(* ================================================================== *)

Lemma run_parts {A B C : Type} (x : A * B * C) :
  x = (answer_of x, trace_of x, world_of x).
Proof. by destruct x as [[a b] c]. Qed.

(** Two overlapping requests against a chain that enforces the account
    sequence: both have looked the account up before either broadcasts,
    so both broadcasts carry the token (7, 41); the chain accepts the
    first and rejects the second, and the second request is answered
    with the 500 failure. *)
Lemma overlap_on_strict_chain :
  let x := run_pool (E := strict_world) overlap_schedule
             (map (handle cf0) two_requests) (world0 strict_chain ledger0) in
  map tr_token (broadcasts (trace_of x)) =
    [ {| tok_accountNumber := 7; tok_sequence := 41 |};
      {| tok_accountNumber := 7; tok_sequence := 41 |} ]
  /\ map tr_to (successes (trace_of x)) = ["int3alice"]
  /\ answer_of x = [Ret (sent (receipt ledger0)); Ret send_failed].
Proof. vm_compute. repeat split; reflexivity. Qed.

(** Six overlapping requests for one recipient, limit five: every
    request makes its two checks before any of them goes on.  The first
    five address checks are allowed, the sixth is denied; five transfers
    are sent and the sixth request is answered 429. *)
Lemma six_overlapping_requests_admit_five :
  let x := run_pool (E := strict_world) checks_first_schedule
             (map (handle cf0) six_requests) (world0 strict_chain ledger0) in
  length (allowed_checks Address "int3alice" (trace_of x)) = 5%nat
  /\ map tr_to (successes (trace_of x)) = replicate 5 "int3alice"
  /\ answer_of x !! 5%nat = Some (Ret too_often).
Proof. vm_compute. repeat split; reflexivity. Qed.

Lemma C2_witness :
  let x := run_pool (E := strict_world) checks_first_schedule
             (map (handle cf0) six_requests) (world0 strict_chain ledger0) in
  (Z.of_nat (length (filter (in_window 1000)
                       (allowed_checks Address "int3alice" (trace_of x))))
   <= Z.max 0 (limit_of cf0 Address))%Z.
Proof.
  intros x.
  exact (proj2 (C2_admission_counts_and_never_exceeds cf0 strict_chain
                  six_requests checks_first_schedule
                  (world0 strict_chain ledger0))
           Address "int3alice" 1000%Z).
Defined.

Lemma C3_witness :
  let x := run (E := strict_world) (send_handler cf0 "int3alice" "10.0.0.1")
             (world0 strict_chain refusing_ledger) in
  exists t1 t2 e,
    answer_of x = Ok (on_error "int3alice" e)
    /\ (1000 <= t1 <= t2)%Z /\ (t2 <= now (world_of x))%Z
    /\ allowed_checks Address "int3alice" (trace_of x) = [t1]
    /\ allowed_checks Origin "10.0.0.1" (trace_of x) = [t2]
    /\ store (world_of x)
       = count_event t2 (count_event t1 ∅ "int3alice") "10.0.0.1"
    /\ (forall T, (t2 <= T)%Z -> recent T t1 ->
         allowance 5 T (store (world_of x)) "int3alice"
         = (allowance 5 T ∅ "int3alice" - 1)%Z
         /\ allowance 5 T (store (world_of x)) "10.0.0.1"
           = (allowance 5 T ∅ "10.0.0.1" - 1)%Z).
Proof.
  intros x.
  refine (C3_failed_broadcast_keeps_both_reservations cf0 strict_chain
            "int3alice" "10.0.0.1" (world0 strict_chain refusing_ledger)
            _ _ _ _ (run_parts x) _ _).
  - discriminate.
  - vm_compute. discriminate.
  - vm_compute. reflexivity.
Defined.

Lemma C4_witness :
  run (E := strict_world) (send_handler cf0 "cosmos1abc" "10.0.0.1")
    (world0 strict_chain ledger0)
  = (Ok (not_supported "cosmos1abc"), [], world0 strict_chain ledger0)
  /\ status (not_supported "cosmos1abc") = 400%nat.
Proof.
  exact (C4_wrong_prefix_touches_nothing (E := strict_world) cf0
           "cosmos1abc" "10.0.0.1" (world0 strict_chain ledger0) eq_refl).
Defined.

Lemma C5_witness :
  let x := run (E := strict_world) (send_handler cf0 "int3alice" "10.0.0.1")
             used_up in
  answer_of x = Ok too_often
  /\ broadcasts (trace_of x) = []
  /\ existsb is_chain_event (trace_of x) = false.
Proof.
  intros x.
  destruct (C5_both_checks_gate_dispatch (E := strict_world) cf0
              "int3alice" "10.0.0.1" used_up _ _ _ eq_refl eq_refl
              (run_parts x)) as [_ Hdenied].
  destruct (Hdenied false true _ _ eq_refl eq_refl eq_refl)
    as (Hr & _ & Hb & Hc & _).
  exact (conj Hr (conj Hb Hc)).
Defined.

Lemma C6_witness :
  let x := run (E := strict_world) (sendTx cf0 "int3alice")
             (world0 strict_chain foreign_ledger) in
  answer_of x
    = Err (tx_failed "int3alice" (chain_mismatch "int3face-1" "othernet-9"))
  /\ broadcasts (trace_of x) = []
  /\ account_lookups (trace_of x) = [].
Proof.
  intros x.
  refine (C6_chain_mismatch_stops_dispatch (E := strict_world) cf0
            "int3alice" (world0 strict_chain foreign_ledger) _ _ _
            "othernet-9" (run_parts x) _ _).
  - vm_compute. constructor.
  - discriminate.
Defined.

Lemma C7_witness :
  let x := run (E := offline_world) (send_handler cf0 "int3alice" "10.0.0.1")
             tt in
  (exists e, answer_of x = Ok (on_error "int3alice" e))
  /\ (forall resp, answer_of x = Ok resp -> status resp <> 200%nat)
  /\ existsb is_chain_event (trace_of x) = false
  /\ broadcasts (trace_of x) = []
  /\ (forall k, updates k (trace_of x) = []).
Proof.
  intros x.
  exact (C7_check_error_fails_closed (E := offline_world) cf0
           "int3alice" "10.0.0.1" tt _ _ _ (run_parts x) eq_refl).
Defined.

Lemma C8_witness :
  let x := run (E := strict_world) (send_handler cf0 "int3alice" "10.0.0.1")
             (world0 strict_chain ledger0) in
  exists fa tok,
    broadcasts (trace_of x) =
      [ {| tr_from := fa; tr_to := "int3alice";
           tr_amount := [tx_amount cf0]; tr_fee := tx_fee cf0;
           tr_token := tok |} ]
    /\ successes (trace_of x) = broadcasts (trace_of x)
    /\ custodial_addresses (trace_of x) = [fa].
Proof.
  intros x.
  assert (run (E := strict_world) (send_handler cf0 "int3alice" "10.0.0.1")
            (world0 strict_chain ledger0)
          = (Ok (sent (receipt ledger0)), trace_of x, world_of x)) as Hrun
    by (vm_compute; reflexivity).
  exact (C8_one_fixed_transfer (E := strict_world) cf0 "int3alice" "10.0.0.1"
           (world0 strict_chain ledger0) (sent (receipt ledger0)) _ _
           Hrun eq_refl).
Defined.

(** A recipient that contains the phrase: the missing custodial account
    is answered with the 400 branch. *)
Lemma C9_phrase_in_recipient : ~ missing_account_always_generic.
Proof.
  intros H.
  specialize (H strict_world cf0 odd_recipient "10.0.0.1"
                (world0 strict_chain unfunded_ledger)).
  cbv zeta in H.
  assert (exists fa, (fa, None) ∈ account_lookups (trace_of
            (run (E := strict_world) (send_handler cf0 odd_recipient "10.0.0.1")
               (world0 strict_chain unfunded_ledger)))) as Hmiss.
  { exists "int3faucet". vm_compute. constructor. }
  apply H in Hmiss.
  match type of Hmiss with ?l = _ =>
    assert (l = Ok (not_on_chain odd_recipient)) as Hl
      by (vm_compute; reflexivity);
    rewrite Hl in Hmiss
  end.
  discriminate Hmiss.
Qed.

Lemma C9_witness :
  let x := run (E := strict_world) (send_handler cf0 "int3alice" "10.0.0.1")
             (world0 strict_chain unfunded_ledger) in
  answer_of x = Ok send_failed.
Proof.
  intros x.
  refine (C9_missing_account_answer (E := strict_world) cf0 "int3alice"
            "10.0.0.1" (world0 strict_chain unfunded_ledger) _ _ _
            "int3faucet" (run_parts x) _).
  vm_compute. constructor.
Defined.

Lemma C10_witness :
  let x1 := run (E := strict_world) (config_json (conf env0))
              (world0 strict_chain ledger0) in
  let x2 := run (E := lax_world) (config_json (conf env1))
              (world0 lax_chain ledger0) in
  exists r1 r2,
    answer_of x1 = Ok r1 /\ answer_of x2 = Ok r2 /\ r2 = r1.
Proof.
  intros x1 x2.
  pose (r1 := {| status := 200;
                 body := JsonObject (project_view (project (conf env0))
                           "int3faucet" (l_balances ledger0) "uint3") |}).
  pose (r2 := {| status := 200;
                 body := JsonObject (project_view (project (conf env1))
                           "int3faucet" (l_balances ledger0) "uint3") |}).
  assert (run (E := strict_world) (config_json (conf env0))
            (world0 strict_chain ledger0) = (Ok r1, trace_of x1, world_of x1))
    as Hrun1 by (vm_compute; reflexivity).
  assert (run (E := lax_world) (config_json (conf env1))
            (world0 lax_chain ledger0) = (Ok r2, trace_of x2, world_of x2))
    as Hrun2 by (vm_compute; reflexivity).
  assert (custodial_addresses (trace_of x2) = custodial_addresses (trace_of x1))
    as Hfa by (vm_compute; reflexivity).
  assert (balance_answers (trace_of x2) = balance_answers (trace_of x1))
    as Hbal by (vm_compute; reflexivity).
  destruct (C10_config_answer_shows_project_only
              (E1 := strict_world) (E2 := lax_world) (conf env0) (conf env1)
              (world0 strict_chain ledger0) (world0 lax_chain ledger0)
              r1 r2 _ (trace_of x2) _ (world_of x2) Hrun1 eq_refl)
    as [_ Hsame].
  exists r1, r2. split; [|split].
  - exact (f_equal answer_of Hrun1).
  - exact (f_equal answer_of Hrun2).
  - exact (Hsame Hrun2 eq_refl eq_refl eq_refl Hfa Hbal).
Defined.

(* ================================================================== *)
(** * Further properties of [sendTx] *)
(* ================================================================== *)

#[local] Transparent sendTx.

(** Run the next call of the program in the goal and split on its
    outcome: the first goal is the call that returned. *)
Ltac exec_call :=
  cbn [run bind try_catch await detached];
  match goal with
  | |- context [respond ?E ?X ?c ?w] =>
    let r := fresh "r" in
    let w' := fresh "w" in
    let Hr := fresh "Hr" in
    destruct (respond E X c w) as [[r | r] w'] eqn:Hr
  end; cbn [run bind try_catch await detached].

(** Walk through [sendTx]; [tac] closes the paths that end early, the
    goal left is the path that broadcasts. *)
Ltac sendTx_paths tac :=
  unfold sendTx;
  exec_call; [|tac];
  exec_call; [|tac];
  exec_call; [|tac];
  exec_call; [|tac];
  match goal with
  | |- context [String.eqb ?c (chain_id ?cf)] =>
    let Hcid := fresh "Hcid" in
    destruct (String.eqb c (chain_id cf)) eqn:Hcid;
    [apply String.eqb_eq in Hcid; subst c | apply String.eqb_neq in Hcid];
    cbn [negb run bind try_catch]; [|tac]
  end;
  match goal with
  | |- context [head ?l] =>
    let fa := fresh "fa" in
    destruct l as [|fa ?]; cbn [head run bind try_catch]; [tac|]
  end;
  exec_call; [|tac];
  match goal with
  | |- context [match ?o with Some _ => _ | None => _ end] =>
    let acc := fresh "acc" in
    destruct o as [acc|]; cbn [run bind try_catch]; [|tac]
  end;
  match goal with
  | |- context [amount_invalid ?a] =>
    let Ha := fresh "Hamount" in
    destruct (amount_invalid a) eqn:Ha; cbn [run bind try_catch]; [tac|]
  end;
  match goal with
  | |- context [fee_invalid ?f] =>
    let Hf := fresh "Hfee" in
    destruct (fee_invalid f) eqn:Hf; cbn [run bind try_catch]; [tac|]
  end.

(** Name the outcome of a finished path. *)
Ltac outcome :=
  let r := fresh "r" in
  let tr := fresh "tr" in
  let w' := fresh "w'" in
  intros r tr w'; leaf; cbn.

Section SendTxMore.
Context {E : World}.

(** X1: whatever [sendTx] broadcasts, accepted or not, it broadcasts
    once, to the recipient it was called with, the configured amount
    and fee, from the address of the wallet's first account, with the
    account number and sequence that [getAccount] returned for that
    address in the same call. *)
Theorem sendTx_broadcast_uses_lookup cf rcpt (w : wstate E) r tr w' T :
  run (sendTx cf rcpt) w = (r, tr, w') ->
  T ∈ broadcasts tr ->
  broadcasts tr = [T]
  /\ tr_to T = rcpt
  /\ tr_amount T = [tx_amount cf]
  /\ tr_fee T = tx_fee cf
  /\ custodial_addresses tr = [tr_from T]
  /\ exists acc,
       account_lookups tr = [(tr_from T, Some acc)]
       /\ tr_token T = token_of acc.
Proof.
  revert r tr w'.
  sendTx_paths ltac:(outcome; intros Hin; by in_list Hin).
  exec_call; outcome; intros Hin; in_list Hin; subst T; cbn;
    (repeat split; try reflexivity; by eexists).
Qed.

(** X2: with a configured amount whose [amount] or [denom] is empty, or
    a fee whose [gas] is empty, [sendTx] never broadcasts and always
    throws; the configuration is only looked at after the account was
    found, and then the error is the invalid-format one (the amount is
    checked first). *)
Theorem sendTx_invalid_config_never_broadcasts cf rcpt (w : wstate E)
  r tr w' :
  amount_invalid (tx_amount cf) || fee_invalid (tx_fee cf) = true ->
  run (sendTx cf rcpt) w = (r, tr, w') ->
  broadcasts tr = []
  /\ (exists e, r = Err e)
  /\ (forall fa acc, (fa, Some acc) ∈ account_lookups tr ->
       r = Err (tx_failed rcpt
                  (if amount_invalid (tx_amount cf) then bad_amount
                   else bad_fee))).
Proof.
  intros Hbad. revert r tr w'.
  sendTx_paths ltac:(
    outcome; (split; [reflexivity|]); (split; [by eexists|]);
    intros ? ? Hin; in_list Hin;
    first [discriminate Hin | reflexivity]).
  discriminate Hbad.
Qed.

(** X3: once [getAccount] has found the account and the configured
    amount and fee are well formed, [sendTx] does broadcast: nothing
    else can stop it between the lookup and the broadcast. *)
Theorem sendTx_found_account_broadcasts cf rcpt (w : wstate E) r tr w'
  fa acc :
  amount_invalid (tx_amount cf) = false ->
  fee_invalid (tx_fee cf) = false ->
  run (sendTx cf rcpt) w = (r, tr, w') ->
  (fa, Some acc) ∈ account_lookups tr ->
  broadcasts tr = [transfer_of cf fa rcpt (token_of acc)].
Proof.
  intros Ha Hf. revert r tr w'.
  sendTx_paths ltac:(
    outcome; intros Hin; in_list Hin; first [discriminate Hin | congruence]).
  exec_call; outcome; intros Hin; in_list Hin; by injection Hin as <- <-.
Qed.

(** X4: when the wallet reports no account, [sendTx] throws without
    looking up any account and without broadcasting; if the chain
    identity matched, the error is the re-wrapped TypeError of
    [firstAccount.address]. *)
Theorem sendTx_no_account_in_wallet cf rcpt (w : wstate E) r tr w' :
  run (sendTx cf rcpt) w = (r, tr, w') ->
  [] ∈ account_lists tr ->
  (exists e, r = Err e)
  /\ account_lookups tr = []
  /\ broadcasts tr = []
  /\ (chain_ids tr = [chain_id cf] ->
      r = Err (tx_failed rcpt undefined_address)).
Proof.
  revert r tr w'.
  sendTx_paths ltac:(
    outcome; intros Hin; in_list Hin; try discriminate Hin;
    (split; [by eexists|]); (split; [reflexivity|]); (split; [reflexivity|]);
    intros Hid; first [discriminate Hid | congruence | reflexivity]).
  exec_call; outcome; intros Hin; in_list Hin; discriminate Hin.
Qed.

(** The shape of a run of [sendTx] that threw. *)
Lemma sendTx_throws cf rcpt (w : wstate E) (r : result DeliverTxResponse)
  tr w' :
  run (sendTx cf rcpt) w = (r, tr, w') ->
  forall e, r = Err e ->
  exists e',
    message e = Some ("Transaction failed for recipient " +:+ rcpt +:+ ": "
                      +:+ message_text e')
    /\ (forall e0, e0 ∈ chain_errors tr ->
         e0 = e' /\ chain_errors tr = [e0]
         /\ exists pre, chain_errors pre = []
              /\ exists t X (c : chain_call X),
                   tr = pre ++ [Event t (Chain c) (Err e0)]).
Proof.
  revert r tr w'.
  sendTx_paths ltac:(
    outcome; intros ? [= <-]; eexists; (split; [reflexivity|]);
    intros ? Hin; in_list Hin; subst;
    (split; [reflexivity|]); (split; [reflexivity|]);
    match goal with
    | |- exists pre, _ /\ exists t X c, ?l = _ =>
      exists (removelast l); split; [reflexivity|];
      eexists _, _, _; reflexivity
    end).
  exec_call; outcome; intros ? [=]; subst.
  eexists; (split; [reflexivity|]).
  intros ? Hin; in_list Hin; subst.
  (split; [reflexivity|]); (split; [reflexivity|]).
  match goal with
  | |- exists pre, _ /\ exists t X c, ?l = _ =>
    exists (removelast l); split; [reflexivity|];
    eexists _, _, _; reflexivity
  end.
Qed.

(** The shape of a run of [sendTx] that returned. *)
Lemma sendTx_returns cf rcpt (w : wstate E) (r : result DeliverTxResponse)
  tr w' :
  run (sendTx cf rcpt) w = (r, tr, w') ->
  forall res, r = Ok res ->
  exists wl fa rest cl acc t1 t2 t3 t4 t5 t6,
    tr =
    [ Event t1 (Chain (fromMnemonic (mnemonic cf) (sender_option cf))) (Ok wl);
      Event t2 (Chain (getAccounts wl)) (Ok (fa :: rest));
      Event t3 (Chain (connectWithSigner (rpc_endpoint cf) wl)) (Ok cl);
      Event t4 (Chain (getChainId cl)) (Ok (chain_id cf));
      Event t5 (Chain (getAccount cl (address fa))) (Ok (Some acc));
      Event t6 (Chain (sendTokens cl (address fa) rcpt [tx_amount cf]
                         (tx_fee cf) (token_of acc))) (Ok res) ]
    /\ amount_invalid (tx_amount cf) = false
    /\ fee_invalid (tx_fee cf) = false.
Proof.
  revert r tr w'.
  sendTx_paths ltac:(outcome; discriminate).
  exec_call; outcome; [|discriminate].
  intros ? [= ->]. eexists _, _, _, _, _, _, _, _, _, _, _.
  split; [reflexivity|]. by split.
Qed.

(** X5: every error that leaves [sendTx] is an [Error] whose message is
    "Transaction failed for recipient R: M", with R the recipient and M
    the message of the error caught inside; when a call to the wallet
    or to the node failed, M is that call's message, it is the only
    failed call, and it was the last call made. *)
Theorem sendTx_error_is_rewrapped cf rcpt (w : wstate E) e tr w' :
  run (sendTx cf rcpt) w = (Err e, tr, w') ->
  exists e',
    message e = Some ("Transaction failed for recipient " +:+ rcpt +:+ ": "
                      +:+ message_text e')
    /\ (forall e0, e0 ∈ chain_errors tr ->
         e0 = e' /\ chain_errors tr = [e0]
         /\ exists pre, chain_errors pre = []
              /\ exists t X (c : chain_call X),
                   tr = pre ++ [Event t (Chain c) (Err e0)]).
Proof. intros Hrun. exact (sendTx_throws _ _ _ _ _ _ Hrun e eq_refl). Qed.

(** X6: when [sendTx] returns, it made exactly six calls, in this
    order: open the wallet from the configured mnemonic and options,
    list its accounts, connect to the configured endpoint with that
    wallet as signer, read the chain identity (which equalled the
    configured one), look up the first account's address, and send the
    tokens; what it returns is what [sendTokens] returned. *)
Theorem sendTx_success_calls cf rcpt (w : wstate E) res tr w' :
  run (sendTx cf rcpt) w = (Ok res, tr, w') ->
  exists wl fa rest cl acc t1 t2 t3 t4 t5 t6,
    tr =
    [ Event t1 (Chain (fromMnemonic (mnemonic cf) (sender_option cf))) (Ok wl);
      Event t2 (Chain (getAccounts wl)) (Ok (fa :: rest));
      Event t3 (Chain (connectWithSigner (rpc_endpoint cf) wl)) (Ok cl);
      Event t4 (Chain (getChainId cl)) (Ok (chain_id cf));
      Event t5 (Chain (getAccount cl (address fa))) (Ok (Some acc));
      Event t6 (Chain (sendTokens cl (address fa) rcpt [tx_amount cf]
                         (tx_fee cf) (token_of acc))) (Ok res) ]
    /\ amount_invalid (tx_amount cf) = false
    /\ fee_invalid (tx_fee cf) = false.
Proof. intros Hrun. exact (sendTx_returns _ _ _ _ _ _ Hrun res eq_refl). Qed.

End SendTxMore.

(* ================================================================== *)
(** * Further properties of [GET /send/:address] *)
(* ================================================================== *)

Lemma startsWith_spec (s p : string) :
  startsWith s p = true <-> exists rest, s = p +:+ rest.
Proof.
  revert s. induction p as [|c p IH]; intros s.
  - split; [intros _; by exists s | intros _; by destruct s].
  - destruct s as [|d s]; simpl.
    + split; [intros Hf; discriminate Hf
             | intros [rest Hrest]; discriminate Hrest].
    + rewrite andb_true_iff, IH. split.
      * intros [Hc [rest ->]]. apply Ascii.eqb_eq in Hc as ->. by exists rest.
      * intros [rest [= -> ->]]. split; [apply Ascii.eqb_refl | by exists rest].
Qed.

(** What the [catch] block of the handler makes of an error re-wrapped
    by [sendTx]: the fixed words of the message never contain the
    phrase, so only the recipient and the inner message count. *)
Lemma rewrapped_message_mentions (e : Error) (a m : string) :
  message e = Some ("Transaction failed for recipient " +:+ a +:+ ": " +:+ m) ->
  mentions_missing_account e =
  includes a missing_phrase || includes m missing_phrase.
Proof.
  intros Hm. unfold mentions_missing_account. rewrite Hm.
  rewrite !append_cons, !append_nil.
  cbn [truthy andb].
  cbn [includes startsWith Ascii.eqb Bool.eqb andb orb missing_phrase].
  fold missing_phrase.
  rewrite (includes_barrier ":" missing_phrase eq_refl).
  reflexivity.
Qed.

Section HandlerMore.
Context {E : World}.

(** X8: the frequency checker is consulted exactly for the addresses
    that are not empty and consist of the configured prefix followed by
    anything; its first call is then [checkAddress] on that address.
    An empty address is answered "Address is required." whatever the
    prefix is. *)
Theorem send_handler_validation cf a ip (w : wstate E) r tr w' :
  run (send_handler cf a ip) w = (r, tr, w') ->
  ((a <> EmptyString
    /\ exists rest, a = opt_prefix (sender_option cf) +:+ rest)
   <-> exists t r0 tr',
         tr = Event t (Checker (checkAddress a)) r0 :: tr')
  /\ (a = EmptyString -> r = Ok address_required).
Proof.
  intros Hrun. apply run_send_handler in Hrun.
  assert (truthy a = true <-> a <> EmptyString) as Htruthy
    by (destruct a; cbn; split; congruence).
  destruct Hrun as [ Ha | Ha Hp | e w1 Ha Hp H1 | b e w1 w2 Ha Hp H1 H2
    | b1 b2 w1 w2 Ha Hp H1 H2 Hb | w1 w2 e w3 Ha Hp H1 H2 H3
    | w1 w2 w3 e trs w4 Ha Hp H1 H2 H3 Hs
    | w1 w2 w3 res trs w4 e w5 Ha Hp H1 H2 H3 Hs H4
    | w1 w2 w3 res trs w4 w5 Ha Hp H1 H2 H3 Hs H4 ].
  - split; [|done]. split.
    + intros [Hne _]. apply Htruthy in Hne. congruence.
    + intros (t & r0 & tr' & Heq). discriminate Heq.
  - split; [|intros ->; discriminate Ha]. split.
    + intros [_ Hex]. apply startsWith_spec in Hex. congruence.
    + intros (t & r0 & tr' & Heq). discriminate Heq.
  - split; [|intros ->; discriminate Ha].
    split; [by eexists _, _, _|].
    intros _. split; [by apply Htruthy | by apply startsWith_spec].
  - split; [|intros ->; discriminate Ha].
    split; [by eexists _, _, _|].
    intros _. split; [by apply Htruthy | by apply startsWith_spec].
  - split; [|intros ->; discriminate Ha].
    split; [by eexists _, _, _|].
    intros _. split; [by apply Htruthy | by apply startsWith_spec].
  - split; [|intros ->; discriminate Ha].
    split; [by eexists _, _, _|].
    intros _. split; [by apply Htruthy | by apply startsWith_spec].
  - split; [|intros ->; discriminate Ha].
    split; [by eexists _, _, _|].
    intros _. split; [by apply Htruthy | by apply startsWith_spec].
  - split; [|intros ->; discriminate Ha].
    split; [by eexists _, _, _|].
    intros _. split; [by apply Htruthy | by apply startsWith_spec].
  - split; [|intros ->; discriminate Ha].
    split; [by eexists _, _, _|].
    intros _. split; [by apply Htruthy | by apply startsWith_spec].
Qed.

(** X9: a request answered 429 asked both checks, the origin check
    also when the address check had already said no; at least one said
    no; and it made no other call: [update] was not called and the
    chain was not contacted. *)
Theorem send_handler_denied_calls cf a ip (w : wstate E) resp tr w' :
  run (send_handler cf a ip) w = (Ok resp, tr, w') ->
  status resp = 429%nat ->
  exists b1 b2 t1 t2,
    b1 && b2 = false
    /\ tr = [Event t1 (Checker (checkAddress a)) (Ok b1);
             Event t2 (Checker (checkIp ip)) (Ok b2)].
Proof.
  intros Hrun Hst. apply run_send_handler in Hrun.
  assert (forall e, status (on_error a e) <> 429%nat) as Herr
    by (intros e; unfold on_error;
        by destruct (mentions_missing_account e)).
  inversion Hrun; subst; try discriminate Hst;
    try (by destruct (Herr e)).
  by eexists _, _, _, _.
Qed.

(** X10: when a call to the wallet or to the node fails during the
    dispatch, the answer depends on two texts only: it is the 400
    "does not exist on the blockchain" answer if the recipient or the
    message of the failed call contains "does not exist on chain", and
    the generic 500 failure otherwise. *)
Theorem send_handler_chain_error_answer cf a ip (w : wstate E) r tr w' e0 :
  run (send_handler cf a ip) w = (r, tr, w') ->
  e0 ∈ chain_errors tr ->
  r = Ok (if includes a missing_phrase
             || includes (message_text e0) missing_phrase
          then not_on_chain a else send_failed).
Proof.
  intros Hrun Hin. apply run_send_handler in Hrun.
  destruct Hrun as [ Ha | Ha Hp | e w1 Ha Hp H1 | b e w1 w2 Ha Hp H1 H2
    | b1 b2 w1 w2 Ha Hp H1 H2 Hb | w1 w2 e w3 Ha Hp H1 H2 H3
    | w1 w2 w3 e trs w4 Ha Hp H1 H2 H3 Hs
    | w1 w2 w3 res trs w4 e w5 Ha Hp H1 H2 H3 Hs H4
    | w1 w2 w3 res trs w4 w5 Ha Hp H1 H2 H3 Hs H4 ];
    try (by in_list Hin).
  - unfold chain_errors in Hin. rewrite omap_app in Hin.
    cbn in Hin.
    destruct (sendTx_throws _ _ _ _ _ _ Hs e eq_refl) as (e' & Hmsg & Hlast).
    destruct (Hlast e0 Hin) as (-> & _).
    unfold on_error; by rewrite (rewrapped_message_mentions _ _ _ Hmsg).
  - unfold chain_errors in Hin. rewrite !omap_app in Hin.
    destruct (sendTx_returns _ _ _ _ _ _ Hs res eq_refl)
      as (wl & fa & rest & cl & acc & t1 & t2 & t3 & t4 & t5 & t6 & -> & _).
    by in_list Hin.
  - unfold chain_errors in Hin. rewrite !omap_app in Hin.
    destruct (sendTx_returns _ _ _ _ _ _ Hs res eq_refl)
      as (wl & fa & rest & cl & acc & t1 & t2 & t3 & t4 & t5 & t6 & -> & _).
    by in_list Hin.
Qed.

(** X11: a request answered 200 made its calls in this order: the
    address check and the origin check, both answered [true]; [update]
    for the origin; the calls of one [sendTx] for the recipient, which
    returned the result that is sent back; and last [update] for the
    recipient.  [update] was called once for the origin, before the
    dispatch, and once for the recipient, after it. *)
Theorem send_handler_success_updates_both cf a ip (w : wstate E) resp tr w' :
  run (send_handler cf a ip) w = (Ok resp, tr, w') ->
  status resp = 200%nat ->
  exists t1 t2 t3 t4 (w3 : wstate E) res trs w4,
    tr = [Event t1 (Checker (checkAddress a)) (Ok true);
          Event t2 (Checker (checkIp ip)) (Ok true);
          Event t3 (Checker (update ip)) (Ok tt)]
         ++ trs ++ [Event t4 (Checker (update a)) (Ok tt)]
    /\ run (sendTx cf a) w3 = (Ok res, trs, w4)
    /\ forallb is_chain_event trs = true
    /\ resp = sent res
    /\ (a <> ip -> updates ip tr = [t3] /\ updates a tr = [t4]).
Proof.
  intros Hrun Hst. apply run_send_handler in Hrun.
  assert (forall e, status (on_error a e) <> 200%nat) as Herr
    by apply on_error_status.
  inversion Hrun as [ | | e w1 _ _ H1 | b e w1 w2 _ _ H1 H2
    | b1 b2 w1 w2 _ _ H1 H2 Hb | w1 w2 e w3 _ _ H1 H2 H3
    | w1 w2 w3 e trs w4 _ _ H1 H2 H3 Hs
    | w1 w2 w3 res trs w4 e w5 _ _ H1 H2 H3 Hs H4
    | w1 w2 w3 res trs w4 w5 _ _ H1 H2 H3 Hs H4 ]; subst;
    try discriminate Hst; try (by destruct (Herr e)).
  pose proof (sendTx_trace _ _ _ _ _ _ Hs) as (Hc & _).
  eexists _, _, _, _, w3, res, trs, w4.
  split; [reflexivity|]. split; [exact Hs|]. split; [exact Hc|].
  split; [reflexivity|]. intros Hne.
  rewrite (updates_app ip), (updates_app ip trs).
  rewrite (updates_app a), (updates_app a trs).
  rewrite !(chain_only_updates _ trs Hc). cbn.
  rewrite (bool_decide_eq_true_2 (ip = ip)) by reflexivity.
  rewrite (bool_decide_eq_true_2 (a = a)) by reflexivity.
  rewrite (bool_decide_eq_false_2 (a = ip)) by congruence.
  rewrite (bool_decide_eq_false_2 (ip = a)) by congruence. done.
Qed.

(** X19: [update] for the origin comes before the dispatch and [update]
    for the recipient after it, so a failed dispatch skips the second:
    a request that reached the wallet or the node and had no broadcast
    accepted made both checks, called [update] for the origin, ran
    [sendTx], which threw, and made no call after that; its answer is
    the [catch] block's, and [update] was never called for the
    recipient. *)
Theorem send_handler_failed_dispatch_updates_origin cf a ip (w : wstate E)
  r tr w' :
  run (send_handler cf a ip) w = (r, tr, w') ->
  existsb is_chain_event tr = true ->
  successes tr = [] ->
  exists t1 t2 t3 (w3 : wstate E) e trs,
    tr = [Event t1 (Checker (checkAddress a)) (Ok true);
          Event t2 (Checker (checkIp ip)) (Ok true);
          Event t3 (Checker (update ip)) (Ok tt)] ++ trs
    /\ run (sendTx cf a) w3 = (Err e, trs, w')
    /\ forallb is_chain_event trs = true
    /\ r = Ok (on_error a e)
    /\ (a <> ip -> updates ip tr = [t3] /\ updates a tr = []).
Proof.
  intros Hrun Hchain Hsucc. apply run_send_handler in Hrun.
  destruct Hrun as [ | | e w1 _ _ H1 | b e w1 w2 _ _ H1 H2
    | b1 b2 w1 w2 _ _ H1 H2 Hb | w1 w2 e w3 _ _ H1 H2 H3
    | w1 w2 w3 e trs w4 _ _ H1 H2 H3 Hs
    | w1 w2 w3 res trs w4 e w5 _ _ H1 H2 H3 Hs H4
    | w1 w2 w3 res trs w4 w5 _ _ H1 H2 H3 Hs H4 ];
    try discriminate Hchain;
    try (apply sendTx_trace in Hs as (_ & Hok & _);
         destruct (Hok res eq_refl) as (fa & tok & _ & Hsu & _);
         rewrite !successes_app, Hsu in Hsucc; discriminate Hsucc).
  pose proof (sendTx_trace _ _ _ _ _ _ Hs) as (Hc & _).
  eexists _, _, _, w3, e, trs.
  split; [reflexivity|]. split; [exact Hs|]. split; [exact Hc|].
  split; [reflexivity|]. intros Hne.
  rewrite (updates_app ip), (updates_app a), !(chain_only_updates _ trs Hc).
  cbn.
  rewrite (bool_decide_eq_true_2 (ip = ip)) by reflexivity.
  rewrite (bool_decide_eq_false_2 (ip = a)) by congruence. done.
Qed.

End HandlerMore.

(* ================================================================== *)
(** * [sendTx] with the shipped configuration *)
(* ================================================================== *)

(** X20: when [CHAIN_ID] is not set in the environment (or set to the
    empty string), the configured chain identity is the empty string,
    and [sendTx] never broadcasts to a node that reports a non-empty
    identity: every dispatch ends with the chain-id mismatch error. *)
Theorem unset_chain_id_never_sends {E : World} env rcpt (w : wstate E)
  r tr w' cid :
  or_empty (CHAIN_ID env) = EmptyString ->
  run (sendTx (conf env) rcpt) w = (r, tr, w') ->
  cid ∈ chain_ids tr ->
  cid <> EmptyString ->
  broadcasts tr = []
  /\ r = Err (tx_failed rcpt (chain_mismatch EmptyString cid)).
Proof.
  intros Hunset Hrun Hin Hne.
  apply sendTx_trace in Hrun as (_ & _ & _ & Hmis & _).
  assert (chain_id (conf env) = EmptyString) as Hid by exact Hunset.
  destruct (Hmis cid Hin) as (Hr & Hb & _); [by rewrite Hid|].
  rewrite Hid in Hr. by split.
Qed.

(* ================================================================== *)
(** * Further properties of [GET /config.json] *)
(* ================================================================== *)

(** Walk through the handler; [tac] closes every path. *)
Ltac config_paths tac :=
  unfold config_json;
  exec_call; [|tac];
  exec_call; [|tac];
  match goal with
  | |- context [head ?l] =>
    let fa := fresh "fa" in
    destruct l as [|fa ?]; cbn [head run bind try_catch]; [tac|]
  end;
  exec_call; [|tac];
  exec_call; tac.

Section ConfigMore.
Context {E : World}.

(** X13: [/config.json] always answers, with the 500 failure or with
    status 200; it only reads: at most four calls, all to the wallet or
    the node, none of them an account lookup or a broadcast, and none
    to the frequency checker. *)
Theorem config_json_only_reads cf (w : wstate E) :
  exists resp tr w',
    run (config_json cf) w = (Ok resp, tr, w')
    /\ (resp = config_failed \/ status resp = 200%nat)
    /\ forallb is_chain_event tr = true
    /\ broadcasts tr = []
    /\ account_lookups tr = []
    /\ (length tr <= 4)%nat.
Proof.
  destruct (run (config_json cf) w) as [[r tr] w'] eqn:Hrun.
  revert r tr w' Hrun.
  config_paths ltac:(
    outcome; eexists _, _, _; (split; [reflexivity|]); cbn;
    (split; [auto|]); repeat split; lia).
Qed.

(** X14: the answer is the 500 failure exactly when one of the calls
    failed or the wallet reported no account; with an empty wallet the
    handler stops after two calls and opens no connection. *)
Theorem config_json_failure cf (w : wstate E) r tr w' :
  run (config_json cf) w = (r, tr, w') ->
  (r = Ok config_failed <-> (chain_errors tr <> [] \/ [] ∈ account_lists tr))
  /\ ([] ∈ account_lists tr -> length tr = 2%nat).
Proof.
  revert r tr w'.
  config_paths ltac:(
    outcome; split;
    [ split;
      [ intros Hf; first [ discriminate Hf | by left | right; by constructor ]
      | intros [Hf | Hf]; first [ reflexivity | by destruct Hf | by in_list Hf ] ]
    | intros Hf; first [ reflexivity | by in_list Hf ] ]).
Qed.

(** X15: the balance shown is the amount of the first reported coin
    whose denomination is exactly the one looked for (the comparison is
    case sensitive), followed by the denomination in upper case; coins
    of other denominations before it do not matter, and when there is
    no such coin the balance shown is 0. *)
Theorem faucetBalance_first_match (bal : list Coin) (d : string) :
  (Forall (fun c => coin_denom c <> d) bal ->
   faucetBalance bal d = "0 " +:+ toUpperCase d)
  /\ (forall l1 b l2,
       bal = l1 ++ b :: l2 ->
       Forall (fun c => coin_denom c <> d) l1 ->
       coin_denom b = d ->
       faucetBalance bal d = coin_amount b +:+ " " +:+ toUpperCase d).
Proof.
  assert (forall l, Forall (fun c => coin_denom c <> d) l ->
          forall rest, List.find (fun b => String.eqb (coin_denom b) d) (l ++ rest)
                       = List.find (fun b => String.eqb (coin_denom b) d) rest)
    as Hskip.
  { induction 1 as [|c l Hc _ IH]; intros rest; [reflexivity|].
    cbn. apply String.eqb_neq in Hc. rewrite Hc. apply IH. }
  split.
  - intros Hall. unfold faucetBalance.
    rewrite <- (app_nil_r bal), (Hskip bal Hall []). reflexivity.
  - intros l1 b l2 -> Hall Hb. unfold faucetBalance.
    rewrite (Hskip l1 Hall). cbn.
    apply String.eqb_eq in Hb. by rewrite Hb.
Qed.

End ConfigMore.

(* ================================================================== *)
(** * [safeJsonStringify] *)
(* ================================================================== *)

(** Induction over a value and the values inside it. *)
Lemma js_value_induction (P : js_value -> Prop) :
  P VNull ->
  (forall b, P (VBool b)) ->
  (forall n, P (VNumber n)) ->
  (forall n, P (VBigInt n)) ->
  (forall s, P (VString s)) ->
  (forall items, Forall P items -> P (VArray items)) ->
  (forall fields, Forall (fun kv => P (snd kv)) fields -> P (VObject fields)) ->
  forall v, P v.
Proof.
  intros Hnull Hbool Hnum Hbig Hstr Harr Hobj.
  refine (fix IH (v : js_value) : P v :=
    match v with
    | VNull => Hnull
    | VBool b => Hbool b
    | VNumber n => Hnum n
    | VBigInt n => Hbig n
    | VString s => Hstr s
    | VArray items =>
      Harr items
        ((fix go (l : list js_value) : Forall P l :=
            match l with
            | [] => @List.Forall_nil _ P
            | x :: l' => @List.Forall_cons _ P x l' (IH x) (go l')
            end) items)
    | VObject fields =>
      Hobj fields
        ((fix go (l : list (string * js_value))
            : Forall (fun kv => P (snd kv)) l :=
            match l with
            | [] => @List.Forall_nil _ (fun kv => P (snd kv))
            | kv :: l' =>
              @List.Forall_cons _ (fun kv => P (snd kv)) kv l'
                (IH (snd kv)) (go l')
            end) fields)
    end).
Qed.

(** After the replacer no BigInt is left anywhere in the value. *)
Lemma replaced_has_no_bigint (v : js_value) : has_bigint (replaced v) = false.
Proof.
  induction v as [| b | n | n | s | items IH | fields IH]
    using js_value_induction; try reflexivity.
  - cbn [replaced has_bigint]. induction IH as [|x l Hx _ IHl]; [reflexivity|].
    cbn [map existsb]. by rewrite Hx, IHl.
  - cbn [replaced has_bigint]. induction IH as [|[k x] l Hx _ IHl]; [reflexivity|].
    cbn [map existsb]. cbn in Hx. by rewrite Hx, IHl.
Qed.

(** The replacer changes nothing in a value without BigInt. *)
Lemma replaced_without_bigint (v : js_value) :
  has_bigint v = false -> replaced v = v.
Proof.
  induction v as [| b | n | n | s | items IH | fields IH]
    using js_value_induction; try reflexivity; try discriminate.
  - cbn [replaced has_bigint]. intros Hno. f_equal.
    induction IH as [|x l Hx _ IHl]; [reflexivity|].
    cbn [map existsb] in *. apply orb_false_iff in Hno as [Hx' Hl].
    by rewrite Hx, IHl.
  - cbn [replaced has_bigint]. intros Hno. f_equal.
    induction IH as [|[k x] l Hx _ IHl]; [reflexivity|].
    cbn [map existsb] in *. apply orb_false_iff in Hno as [Hx' Hl].
    cbn in Hx. by rewrite Hx, IHl.
Qed.

Lemma plain_char_escape (c : ascii) :
  plain_char c = true -> json_escape_char c = String c EmptyString.
Proof.
  unfold plain_char, json_escape_char.
  intros [[H32 H34]%andb_true_iff H92]%andb_true_iff.
  apply Nat.leb_le in H32.
  apply negb_true_iff in H34, H92. rewrite H34, H92.
  repeat match goal with
  | |- context [(nat_of_ascii c =? ?k)%nat] =>
    destruct (Nat.eqb_spec (nat_of_ascii c) k); [lia|]
  end.
  destruct (Nat.ltb_spec (nat_of_ascii c) 32); [lia | reflexivity].
Qed.

Lemma plain_text_escape (s : string) :
  plain_text s = true -> json_escape s = s.
Proof.
  induction s as [|c s IH]; [reflexivity|].
  cbn [plain_text json_escape]. intros [Hc Hs]%andb_true_iff.
  by rewrite (plain_char_escape c Hc), IH.
Qed.

Lemma digits_are_plain (d : Decimal.uint) :
  plain_text (NilEmpty.string_of_uint d) = true.
Proof. induction d; cbn [NilEmpty.string_of_uint plain_text]; try rewrite IHd; reflexivity. Qed.

Lemma decimal_is_plain (n : Z) : plain_text (decimal n) = true.
Proof.
  unfold decimal, NilZero.string_of_int, NilZero.string_of_uint.
  destruct (Z.to_int n) as [d | d]; destruct d;
    try reflexivity;
    cbn [plain_text]; rewrite ?andb_true_l;
    try apply (digits_are_plain (Decimal.D0 d));
    try apply (digits_are_plain (Decimal.D1 d));
    try apply (digits_are_plain (Decimal.D2 d));
    try apply (digits_are_plain (Decimal.D3 d));
    try apply (digits_are_plain (Decimal.D4 d));
    try apply (digits_are_plain (Decimal.D5 d));
    try apply (digits_are_plain (Decimal.D6 d));
    try apply (digits_are_plain (Decimal.D7 d));
    try apply (digits_are_plain (Decimal.D8 d));
    try apply (digits_are_plain (Decimal.D9 d)).
Qed.

(** X16: [safeJsonStringify] never throws, whatever value it is given,
    while [JSON.stringify] alone throws the TypeError on every value
    that holds a BigInt somewhere. *)
Theorem safeJsonStringify_never_throws (v : js_value) :
  safeJsonStringify v = Ok (json_text (replaced v))
  /\ (has_bigint v = true -> JSON_stringify v = Err bigint_type_error).
Proof.
  split.
  - unfold safeJsonStringify, JSON_stringify.
    by rewrite replaced_has_no_bigint.
  - intros Hb. unfold JSON_stringify. by rewrite Hb.
Qed.

(** X17: on a value without BigInt, [safeJsonStringify] gives exactly
    the text [JSON.stringify] gives. *)
Theorem safeJsonStringify_plain_value (v : js_value) :
  has_bigint v = false ->
  safeJsonStringify v = JSON_stringify v
  /\ JSON_stringify v = Ok (json_text v).
Proof.
  intros Hno. unfold safeJsonStringify.
  rewrite (replaced_without_bigint v Hno). split; [reflexivity|].
  unfold JSON_stringify. by rewrite Hno.
Qed.

(** X18: a BigInt is written as a JSON string holding its decimal
    digits, with nothing escaped: alone, and as the value of an object's
    property. *)
Theorem safeJsonStringify_bigint_text (k : string) (n : Z) :
  safeJsonStringify (VBigInt n) = Ok (dquote +:+ decimal n +:+ dquote)
  /\ safeJsonStringify (VObject [(k, VBigInt n)])
     = Ok ("{" +:+ (json_quote k +:+ ":" +:+ dquote +:+ decimal n +:+ dquote)
           +:+ "}").
Proof.
  unfold safeJsonStringify, JSON_stringify. cbn [replaced replacer map has_bigint existsb orb json_text].
  unfold json_quote at 1 3.
  rewrite (plain_text_escape _ (decimal_is_plain n)).
  split; [reflexivity|].
  cbn [String.concat]. reflexivity.
Qed.

(* ================================================================== *)
(** * The further properties at concrete requests *)
(* ================================================================== *)

Lemma sendTx_broadcast_uses_lookup_witness :
  let x := run (E := strict_world) (sendTx cf0 "int3alice")
             (world0 strict_chain refusing_ledger) in
  answer_of x = Err (tx_failed "int3alice" (new_Error "broadcast rejected"))
  /\ custodial_addresses (trace_of x) = ["int3faucet"]
  /\ exists acc,
       account_lookups (trace_of x) = [("int3faucet", Some acc)]
       /\ {| tok_accountNumber := 7; tok_sequence := 41 |} = token_of acc.
Proof.
  intros x.
  assert (transfer_of cf0 "int3faucet" "int3alice"
            {| tok_accountNumber := 7; tok_sequence := 41 |}
          ∈ broadcasts (trace_of x)) as Hin
    by (vm_compute; constructor).
  destruct (sendTx_broadcast_uses_lookup (E := strict_world) cf0 "int3alice"
              (world0 strict_chain refusing_ledger) _ _ _ _
              (run_parts x) Hin) as (_ & _ & _ & _ & Hfa & Hacc).
  split; [vm_compute; reflexivity|]. exact (conj Hfa Hacc).
Defined.

Lemma sendTx_invalid_config_witness :
  let x := run (E := strict_world) (sendTx cf_no_denom "int3alice")
             (world0 strict_chain ledger0) in
  broadcasts (trace_of x) = []
  /\ answer_of x = Err (tx_failed "int3alice" bad_amount).
Proof.
  intros x.
  destruct (sendTx_invalid_config_never_broadcasts (E := strict_world)
              cf_no_denom "int3alice" (world0 strict_chain ledger0) _ _ _
              eq_refl (run_parts x)) as (Hb & _ & Hfound).
  split; [exact Hb|].
  refine (Hfound "int3faucet" {| accountNumber := 7; sequence := 41 |} _).
  vm_compute. constructor.
Defined.

Lemma sendTx_found_account_witness :
  let x := run (E := strict_world) (sendTx cf0 "int3alice")
             (world0 strict_chain ledger0) in
  broadcasts (trace_of x) =
    [transfer_of cf0 "int3faucet" "int3alice"
       (token_of {| accountNumber := 7; sequence := 41 |})].
Proof.
  intros x.
  refine (sendTx_found_account_broadcasts (E := strict_world) cf0 "int3alice"
            (world0 strict_chain ledger0) _ _ _ "int3faucet"
            {| accountNumber := 7; sequence := 41 |} eq_refl eq_refl
            (run_parts x) _).
  vm_compute. constructor.
Defined.

Lemma sendTx_no_account_witness :
  let x := run (E := empty_wallet_world) (sendTx cf0 "int3alice") tt in
  (exists e, answer_of x = Err e)
  /\ account_lookups (trace_of x) = []
  /\ broadcasts (trace_of x) = []
  /\ (chain_ids (trace_of x) = [chain_id cf0] ->
      answer_of x = Err (tx_failed "int3alice" undefined_address)).
Proof.
  intros x.
  refine (sendTx_no_account_in_wallet (E := empty_wallet_world) cf0
            "int3alice" tt _ _ _ (run_parts x) _).
  vm_compute. constructor.
Defined.

Lemma sendTx_error_is_rewrapped_witness :
  let x := run (E := strict_world) (sendTx cf0 "int3alice")
             (world0 strict_chain refusing_ledger) in
  exists e',
    message (tx_failed "int3alice" (new_Error "broadcast rejected"))
      = Some ("Transaction failed for recipient " +:+ "int3alice" +:+ ": "
              +:+ message_text e')
    /\ (new_Error "broadcast rejected" ∈ chain_errors (trace_of x) ->
        new_Error "broadcast rejected" = e').
Proof.
  intros x.
  assert (run (E := strict_world) (sendTx cf0 "int3alice")
            (world0 strict_chain refusing_ledger)
          = (Err (tx_failed "int3alice" (new_Error "broadcast rejected")),
             trace_of x, world_of x)) as Hrun
    by (vm_compute; reflexivity).
  destruct (sendTx_error_is_rewrapped (E := strict_world) cf0 "int3alice"
              (world0 strict_chain refusing_ledger) _ _ _ Hrun)
    as (e' & Hm & Hlast).
  exists e'. split; [exact Hm|].
  intros Hin. exact (proj1 (Hlast _ Hin)).
Defined.

Lemma sendTx_success_calls_witness :
  let x := run (E := strict_world) (sendTx cf0 "int3alice")
             (world0 strict_chain ledger0) in
  length (trace_of x) = 6%nat
  /\ amount_invalid (tx_amount cf0) = false
  /\ fee_invalid (tx_fee cf0) = false.
Proof.
  intros x.
  assert (run (E := strict_world) (sendTx cf0 "int3alice")
            (world0 strict_chain ledger0)
          = (Ok (receipt ledger0), trace_of x, world_of x)) as Hrun
    by (vm_compute; reflexivity).
  destruct (sendTx_success_calls (E := strict_world) cf0 "int3alice"
              (world0 strict_chain ledger0) _ _ _ Hrun)
    as (wl & fa & rest & cl & acc & t1 & t2 & t3 & t4 & t5 & t6
        & Htr & Ha & Hf).
  split; [by rewrite Htr|]. exact (conj Ha Hf).
Defined.

Lemma send_handler_validation_witness :
  let x := run (E := strict_world) (send_handler cf0 "int3alice" "10.0.0.1")
             (world0 strict_chain ledger0) in
  exists t r0 tr',
    trace_of x = Event t (Checker (checkAddress "int3alice")) r0 :: tr'.
Proof.
  intros x.
  destruct (send_handler_validation (E := strict_world) cf0 "int3alice"
              "10.0.0.1" (world0 strict_chain ledger0) _ _ _ (run_parts x))
    as [[Hcalls _] _].
  apply Hcalls. split; [discriminate|]. by exists "alice".
Defined.

Lemma send_handler_denied_calls_witness :
  let x := run (E := strict_world) (send_handler cf0 "int3alice" "10.0.0.1")
             used_up in
  exists b1 b2 t1 t2,
    b1 && b2 = false
    /\ trace_of x = [Event t1 (Checker (checkAddress "int3alice")) (Ok b1);
                     Event t2 (Checker (checkIp "10.0.0.1")) (Ok b2)].
Proof.
  intros x.
  assert (run (E := strict_world) (send_handler cf0 "int3alice" "10.0.0.1")
            used_up = (Ok too_often, trace_of x, world_of x)) as Hrun
    by (vm_compute; reflexivity).
  exact (send_handler_denied_calls (E := strict_world) cf0 "int3alice"
           "10.0.0.1" used_up too_often _ _ Hrun eq_refl).
Defined.

Lemma send_handler_chain_error_answer_witness :
  let x := run (E := reporting_world) (send_handler cf0 "int3alice" "10.0.0.1")
             tt in
  answer_of x = Ok (not_on_chain "int3alice").
Proof.
  intros x.
  assert (library_error ∈ chain_errors (trace_of x)) as Hin
    by (vm_compute; constructor).
  exact (send_handler_chain_error_answer (E := reporting_world) cf0
           "int3alice" "10.0.0.1" tt _ _ _ library_error (run_parts x) Hin).
Defined.

Lemma send_handler_success_updates_both_witness :
  let x := run (E := strict_world) (send_handler cf0 "int3alice" "10.0.0.1")
             (world0 strict_chain ledger0) in
  exists t3 t4,
    updates "10.0.0.1" (trace_of x) = [t3]
    /\ updates "int3alice" (trace_of x) = [t4]
    /\ length (trace_of x) = 10%nat.
Proof.
  intros x.
  assert (run (E := strict_world) (send_handler cf0 "int3alice" "10.0.0.1")
            (world0 strict_chain ledger0)
          = (Ok (sent (receipt ledger0)), trace_of x, world_of x)) as Hrun
    by (vm_compute; reflexivity).
  assert (length (trace_of x) = 10%nat) as Hlen by (vm_compute; reflexivity).
  destruct (send_handler_success_updates_both (E := strict_world) cf0
              "int3alice" "10.0.0.1" (world0 strict_chain ledger0) _ _ _
              Hrun eq_refl)
    as (t1 & t2 & t3 & t4 & w3 & res & trs & w4 & _ & _ & _ & _ & Hup).
  exists t3, t4.
  destruct Hup as [Hip Ha]; [discriminate|].
  exact (conj Hip (conj Ha Hlen)).
Defined.

Lemma config_json_failure_witness :
  let x := run (E := empty_wallet_world) (config_json cf0) tt in
  answer_of x = Ok config_failed /\ length (trace_of x) = 2%nat.
Proof.
  intros x.
  assert ([] ∈ account_lists (trace_of x)) as Hin
    by (vm_compute; constructor).
  destruct (config_json_failure (E := empty_wallet_world) cf0 tt _ _ _
              (run_parts x)) as [[_ Hfail] Hlen].
  exact (conj (Hfail (or_intror Hin)) (Hlen Hin)).
Defined.

Lemma faucetBalance_first_match_witness :
  faucetBalance [ {| coin_denom := "uatom"; coin_amount := "7" |};
                  {| coin_denom := "uint3"; coin_amount := "5000000" |};
                  {| coin_denom := "uint3"; coin_amount := "9" |} ] "uint3"
  = "5000000" +:+ " " +:+ toUpperCase "uint3".
Proof.
  refine (proj2 (faucetBalance_first_match _ "uint3")
            [ {| coin_denom := "uatom"; coin_amount := "7" |} ]
            {| coin_denom := "uint3"; coin_amount := "5000000" |}
            [ {| coin_denom := "uint3"; coin_amount := "9" |} ]
            eq_refl _ eq_refl).
  constructor; [discriminate | constructor].
Defined.

Lemma safeJsonStringify_never_throws_witness :
  safeJsonStringify sample_value = Ok (json_text (replaced sample_value))
  /\ JSON_stringify sample_value = Err bigint_type_error.
Proof.
  destruct (safeJsonStringify_never_throws sample_value) as [Hsafe Hplain].
  exact (conj Hsafe (Hplain eq_refl)).
Defined.

Lemma safeJsonStringify_plain_value_witness :
  safeJsonStringify plain_value = JSON_stringify plain_value
  /\ JSON_stringify plain_value = Ok (json_text plain_value).
Proof. exact (safeJsonStringify_plain_value plain_value eq_refl). Defined.

Lemma send_handler_failed_dispatch_witness :
  let x := run (E := strict_world) (send_handler cf0 "int3alice" "10.0.0.1")
             (world0 strict_chain foreign_ledger) in
  answer_of x = Ok send_failed
  /\ exists t3,
       updates "10.0.0.1" (trace_of x) = [t3]
       /\ updates "int3alice" (trace_of x) = [].
Proof.
  intros x.
  assert (existsb is_chain_event (trace_of x) = true) as Hchain
    by (vm_compute; reflexivity).
  assert (successes (trace_of x) = []) as Hsucc
    by (vm_compute; reflexivity).
  split; [vm_compute; reflexivity|].
  destruct (send_handler_failed_dispatch_updates_origin (E := strict_world)
              cf0 "int3alice" "10.0.0.1" (world0 strict_chain foreign_ledger)
              _ _ _ (run_parts x) Hchain Hsucc)
    as (t1 & t2 & t3 & w3 & e & trs & _ & _ & _ & _ & Hup).
  exists t3. apply Hup. discriminate.
Defined.

Lemma unset_chain_id_witness :
  let env := {| CHAIN_ID := None; RPC_ENDPOINT := None;
                FAUCET_MNEMONIC := None |} in
  let x := run (E := strict_world) (sendTx (conf env) "int3alice")
             (world0 strict_chain ledger0) in
  broadcasts (trace_of x) = []
  /\ answer_of x
     = Err (tx_failed "int3alice" (chain_mismatch EmptyString "int3face-1")).
Proof.
  intros env x.
  refine (unset_chain_id_never_sends (E := strict_world) env "int3alice"
            (world0 strict_chain ledger0) _ _ _ "int3face-1" eq_refl
            (run_parts x) _ _).
  - vm_compute. constructor.
  - discriminate.
Defined.
